(** * Deleted-media backup: the deletion-event pipeline of [main.go]

    A shallow embedding of [sanitize], [filenameFromDocument],
    [inputLocation], [saveMedia] and the event loop of [main], with the
    properties of the pipeline proved (or refuted) on it.

    Conventions.
    - A Go [string] is a sequence of bytes: [list ascii].  [len], slicing
      and [==] are the byte-wise operations of Go.
    - Go's [int] and [int64] values are read as [Z]; the code only copies,
      compares and prints them ([max] is the only arithmetic), so no
      wrap-around is involved.
    - A run-time panic (a slice bound out of range, a method called on
      a [nil] interface value) is the outcome [Panics]; a Go [error]
      value is an ordinary result.
    - The clock, the time zone, the network and Unicode case mapping of
      non-ASCII text are an explicit environment [Env]. *)

From Stdlib Require Import ZArith Ascii String.
From stdpp Require Import gmap strings list.

Local Open Scope Z_scope.

(** ** Byte strings *)

Abbreviation bytes := (list ascii).

Definition str (s : string) : bytes := list_ascii_of_string s.

Definition byteval (c : ascii) : N := N_of_ascii c.

Definition len (s : bytes) : Z := Z.of_nat (length s).

(** The decimal digits of [n >= 0], at most [fuel] of them. *)
Fixpoint digitsOf (fuel : nat) (n : Z) : bytes :=
  match fuel with
  | O => []
  | S fuel' =>
      (if n <? 10 then [] else digitsOf fuel' (n / 10))
      ++ [ascii_of_N (48 + Z.to_N (n mod 10))]
  end.

(** [fmt.Sprintf("%d", n)] and [strconv.FormatInt(n, 10)] for a 64-bit
    [n], which has at most 19 digits. *)
Definition itoa (n : Z) : bytes :=
  (if n <? 0 then ["-"%char] else []) ++ digitsOf 20 (Z.abs n).

Global Arguments digitsOf : simpl never.
Global Arguments itoa : simpl never.

(** The outcome of a Go call: it returns, or the goroutine panics. *)
Inductive outcome (A : Type) : Type :=
  | Returns (a : A)
  | Panics.
Arguments Returns {A} a.
Arguments Panics {A}.

Definition obind {A B} (x : outcome A) (k : A -> outcome B) : outcome B :=
  match x with
  | Returns a => k a
  | Panics => Panics
  end.

(** [s[:k]]: panics unless [0 <= k <= len(s)]. *)
Definition slice_to (s : bytes) (k : Z) : outcome bytes :=
  if (k <? 0) || (len s <? k) then Panics else Returns (take (Z.to_nat k) s).

(** ** The [strings] and [path/filepath] functions used by the code *)

Module GoStrings.

(** [strings.ReplaceAll(s, old, new)] for one-byte [old] and [new]. *)
Definition ReplaceAll (s : bytes) (old new : ascii) : bytes :=
  (fun c => if Ascii.eqb c old then new else c) <$> s.

(** [strings.TrimSpace]: leading and trailing white space, as Unicode
    defines it, is cut.  Go decodes UTF-8 from either end; a white-space
    rune is exactly one of the byte sequences below (TAB, LF, VT, FF, CR,
    SPACE, U+0085, U+00A0, U+1680, U+2000..U+200A, U+2028, U+2029,
    U+202F, U+205F, U+3000), and an ill-formed sequence decodes to U+FFFD,
    which is no space. *)
Definition asciiSpace (c : ascii) : bool :=
  let n := byteval c in ((9 <=? n) && (n <=? 13) || (n =? 32))%N.

(** U+0085 and U+00A0 in UTF-8. *)
Definition space2 (c0 c1 : ascii) : bool :=
  ((byteval c0 =? 194) && ((byteval c1 =? 133) || (byteval c1 =? 160)))%N.

(** U+1680, U+2000..U+200A, U+2028, U+2029, U+202F, U+205F and U+3000
    in UTF-8. *)
Definition space3 (c0 c1 c2 : ascii) : bool :=
  let n0 := byteval c0 in
  let n1 := byteval c1 in
  let n2 := byteval c2 in
  ((n0 =? 225) && (n1 =? 154) && (n2 =? 128)
   || (n0 =? 226) && (n1 =? 128)
      && ((128 <=? n2) && (n2 <=? 138) || (n2 =? 168) || (n2 =? 169) || (n2 =? 175))
   || (n0 =? 226) && (n1 =? 129) && (n2 =? 159)
   || (n0 =? 227) && (n1 =? 128) && (n2 =? 128))%N.

(** The rest of [s] after one leading white-space rune. *)
Definition spacePrefix (s : bytes) : option bytes :=
  match s with
  | [] => None
  | c0 :: t0 =>
      if asciiSpace c0 then Some t0 else
      match t0 with
      | [] => None
      | c1 :: t1 =>
          if space2 c0 c1 then Some t1 else
          match t1 with
          | [] => None
          | c2 :: t2 => if space3 c0 c1 c2 then Some t2 else None
          end
      end
  end.

(** The same read from the end: [r] is the string reversed. *)
Definition spaceSuffixRev (r : bytes) : option bytes :=
  match r with
  | [] => None
  | c0 :: t0 =>
      if asciiSpace c0 then Some t0 else
      match t0 with
      | [] => None
      | c1 :: t1 =>
          if space2 c1 c0 then Some t1 else
          match t1 with
          | [] => None
          | c2 :: t2 => if space3 c2 c1 c0 then Some t2 else None
          end
      end
  end.

Fixpoint trimWith (step : bytes -> option bytes) (fuel : nat) (s : bytes) : bytes :=
  match fuel with
  | O => s
  | S fuel' =>
      match step s with
      | Some t => trimWith step fuel' t
      | None => s
      end
  end.

Definition TrimLeftSpace (s : bytes) : bytes := trimWith spacePrefix (length s) s.

Definition TrimRightSpace (s : bytes) : bytes :=
  reverse (trimWith spaceSuffixRev (length s) (reverse s)).

Definition TrimSpace (s : bytes) : bytes := TrimRightSpace (TrimLeftSpace s).

(** [strings.Trim(s, cutset)] for a cutset of one ASCII byte. *)
Fixpoint TrimLeftByte (c : ascii) (s : bytes) : bytes :=
  match s with
  | x :: t => if Ascii.eqb x c then TrimLeftByte c t else s
  | [] => []
  end.

Definition TrimRightByte (c : ascii) (s : bytes) : bytes :=
  reverse (TrimLeftByte c (reverse s)).

Definition Trim (s : bytes) (c : ascii) : bytes :=
  TrimRightByte c (TrimLeftByte c s).

Definition upperByte (c : ascii) : ascii :=
  let n := byteval c in
  if ((97 <=? n) && (n <=? 122))%N then ascii_of_N (n - 32) else c.

Definition lowerByte (c : ascii) : ascii :=
  let n := byteval c in
  if ((65 <=? n) && (n <=? 90))%N then ascii_of_N (n + 32) else c.

Definition isASCII (s : bytes) : bool := forallb (fun c => (byteval c <? 128)%N) s.

(** [strings.ToUpper], as far as [sanitize] observes it.  The code only
    compares a prefix of the result, cut at its last ['.'], with names
    made of the letters A C L M N O P R T U X and the digits 1..9.  No
    rune outside ASCII upper-cases to one of those characters or to
    ['.'] (the two runes whose upper case is ASCII give I and S), and
    ill-formed bytes become U+FFFD; so for that comparison bytes from
    0x80 on can stay as they are. *)
Definition ToUpper (s : bytes) : bytes := upperByte <$> s.

(** [strings.ToLower]: byte-wise on ASCII text; text with a byte from
    0x80 on goes through Unicode case mapping, [unicodeLower]. *)
Definition ToLower (unicodeLower : bytes -> bytes) (s : bytes) : bytes :=
  if isASCII s then lowerByte <$> s else unicodeLower s.

(** [strings.Split(s, sep)] for a one-byte separator: always at least
    one part. *)
Fixpoint Split (s : bytes) (sep : ascii) : list bytes :=
  match s with
  | [] => [[]]
  | c :: t =>
      if Ascii.eqb c sep then [] :: Split t sep
      else match Split t sep with
           | p :: ps => (c :: p) :: ps
           | [] => [[c]]
           end
  end.

(** [strings.Index(s, sep)] for a one-byte separator; [None] is -1. *)
Fixpoint Index (s : bytes) (sep : ascii) : option nat :=
  match s with
  | [] => None
  | c :: t => if Ascii.eqb c sep then Some O else S <$> Index t sep
  end.

(** [strings.ContainsAny(s, chars)] for ASCII [chars]. *)
Definition ContainsAny (s chars : bytes) : bool :=
  existsb (fun c => existsb (Ascii.eqb c) chars) s.

End GoStrings.

Module GoFilepath.

(** Scanning a path from its end ([r] is the path reversed): the number
    of bytes after the last ['.'] of the final element, if it has one. *)
Fixpoint lastDot (r : bytes) : option nat :=
  match r with
  | [] => None
  | c :: r' =>
      if Ascii.eqb c "."%char then Some O
      else if Ascii.eqb c "/"%char then None
      else S <$> lastDot r'
  end.

(** [filepath.Ext]: the suffix beginning at the final dot of the final
    element of the path, empty if there is no dot. *)
Definition Ext (path : bytes) : bytes :=
  match lastDot (reverse path) with
  | Some n => drop (length path - S n) path
  | None => []
  end.

(** [filepath.Clean] on a Unix path: empty and ['.'] elements go, a
    ['..'] takes the element before it with it (at the root it just
    goes), the empty result is ['.']. *)
Fixpoint cleanElems (rooted : bool) (stack es : list bytes) : list bytes :=
  match es with
  | [] => reverse stack
  | e :: es' =>
      if bool_decide (e = []) || bool_decide (e = str ".") then cleanElems rooted stack es'
      else if bool_decide (e = str "..") then
        match stack with
        | top :: rest =>
            if bool_decide (top = str "..") then cleanElems rooted (e :: stack) es'
            else cleanElems rooted rest es'
        | [] => if rooted then cleanElems rooted [] es' else cleanElems rooted [e] es'
        end
      else cleanElems rooted (e :: stack) es'
  end.

Fixpoint joinElems (es : list bytes) : bytes :=
  match es with
  | [] => []
  | [e] => e
  | e :: es' => e ++ "/"%char :: joinElems es'
  end.

Definition Clean (path : bytes) : bytes :=
  let rooted := match path with c :: _ => Ascii.eqb c "/"%char | [] => false end in
  let out := (if rooted then ["/"%char] else [])
             ++ joinElems (cleanElems rooted [] (GoStrings.Split path "/"%char)) in
  if bool_decide (out = []) then str "." else out.

(** [filepath.Join] of two elements. *)
Definition Join (a b : bytes) : bytes :=
  if bool_decide (a = []) then (if bool_decide (b = []) then [] else Clean b)
  else Clean (a ++ "/"%char :: b).

End GoFilepath.

Import GoStrings GoFilepath.

(** ** [sanitize] *)

Definition maxLen : Z := 220.

Definition reservedNames : list bytes :=
  str <$> ["CON"; "PRN"; "AUX"; "NUL";
           "COM1"; "COM2"; "COM3"; "COM4"; "COM5"; "COM6"; "COM7"; "COM8"; "COM9";
           "LPT1"; "LPT2"; "LPT3"; "LPT4"; "LPT5"; "LPT6"; "LPT7"; "LPT8"; "LPT9"]%string.

Definition isControl (c : ascii) : bool :=
  let n := byteval c in ((n <? 32) || (n =? 127))%N.

(** The [strings.NewReplacer] of [sanitize]: every old string is one byte,
    so each byte is replaced on its own. *)
Definition replacement (c : ascii) : bytes :=
  if existsb (Ascii.eqb c) (str ":*?<>|") then ["_"%char]
  else if Ascii.eqb c "034"%char then ["'"%char]
  else if isControl c then []
  else [c].

Definition replacerReplace (s : bytes) : bytes := s ≫= replacement.

(** The base name that the reserved-name check looks at. *)
Definition baseName (upperSanitized : bytes) : bytes :=
  let ext := Ext upperSanitized in
  if bool_decide (ext = []) then upperSanitized
  else take (length upperSanitized - length ext) upperSanitized.

Definition isReserved (sanitized : bytes) : bool :=
  bool_decide (baseName (ToUpper sanitized) ∈ reservedNames).

(** The length limit of [sanitize] (lines 449-461). *)
Definition truncate (sanitized : bytes) : outcome bytes :=
  if maxLen <? len sanitized then
    let ext := Ext sanitized in
    let base := take (length sanitized - length ext) sanitized in
    obind (if maxLen - len ext <? len base
           then slice_to base (maxLen - len ext)
           else Returns base)
      (fun base =>
         let sanitized := base ++ ext in
         if maxLen <? len sanitized then slice_to sanitized maxLen
         else Returns sanitized)
  else Returns sanitized.

(** Lines 427-445: replacements, then the two trims. *)
Definition clean (s : bytes) : bytes :=
  let s := ReplaceAll s "/"%char "_"%char in
  let s := ReplaceAll s "\"%char "_"%char in
  let sanitized := replacerReplace s in
  let sanitized := TrimSpace sanitized in
  Trim sanitized "."%char.

(** [now] is what [time.Now().UnixNano()] reads if the call is reached. *)
Definition sanitize (now : Z) (s : bytes) : outcome bytes :=
  if bool_decide (s = []) then Returns (str "empty_filename") else
  obind (truncate (clean s))
    (fun sanitized =>
       if bool_decide (sanitized = []) || bool_decide (sanitized = str ".")
          || bool_decide (sanitized = str "..")
       then Returns (str "sanitized_file_" ++ itoa now)
       else if isReserved sanitized then Returns ("_"%char :: sanitized)
       else Returns sanitized).

(** [s] goes through none of the special branches of [sanitize]: it is
    not empty, the placeholder is not used and no underscore is put in
    front. *)
Definition plainBranch (s : bytes) : bool :=
  negb (bool_decide (s = [])) &&
  match truncate (clean s) with
  | Returns t =>
      negb (bool_decide (t = []) || bool_decide (t = str ".") || bool_decide (t = str ".."))
      && negb (isReserved t)
  | Panics => false
  end.

(** [max] (line 488). *)
Definition max (a b : Z) : Z := if b <? a then a else b.

(** ** The Telegram values the code reads (package [tg])

    Only the fields the code looks at are kept.  An optional interface
    field is an [option], [None] for [nil]: the sender, the peer and the
    medium of a message, and the payload of a document or photo medium
    (the flag-dependent fields [document] and [photo] of the schema).
    Pointers inside an interface value are never [nil], as in every
    value the library decodes. *)

Inductive PeerClass : Type :=
  | PeerUser (UserID : Z)
  | PeerChat (ChatID : Z)
  | PeerChannel (ChannelID : Z).

Inductive DocumentAttributeClass : Type :=
  | DocumentAttributeFilename (FileName : bytes)
  | DocumentAttributeOther.

Record Document : Type := {
  doc_ID : Z;
  doc_AccessHash : Z;
  doc_FileReference : bytes;
  doc_MimeType : bytes;
  doc_Attributes : list DocumentAttributeClass
}.

Inductive DocumentClass : Type :=
  | DocumentEmpty (ID : Z)
  | DocumentOf (doc : Document).

Inductive PhotoSizeClass : Type :=
  | PhotoSizeEmpty (Type_ : bytes)
  | PhotoSize (Type_ : bytes) (W H Size : Z)
  | PhotoCachedSize (Type_ : bytes) (W H : Z)
  | PhotoStrippedSize (Type_ : bytes)
  | PhotoSizeProgressive (Type_ : bytes) (W H : Z)
  | PhotoPathSize (Type_ : bytes).

Record Photo : Type := {
  photo_ID : Z;
  photo_AccessHash : Z;
  photo_FileReference : bytes;
  photo_Sizes : list PhotoSizeClass
}.

Inductive PhotoClass : Type :=
  | PhotoEmpty (ID : Z)
  | PhotoOf (photo : Photo).

Inductive MessageMediaClass : Type :=
  | MessageMediaDocument (Document : option DocumentClass)
  | MessageMediaPhoto (Photo : option PhotoClass)
  | MessageMediaOther.

Record Message : Type := {
  msg_ID : Z;
  msg_Date : Z;
  msg_FromID : option PeerClass;
  msg_PeerID : option PeerClass;
  msg_Media : option MessageMediaClass
}.

Inductive MessageClass : Type :=
  | MessageEmpty (ID : Z)
  | MessageOf (msg : Message)
  | MessageService (ID : Z).

Inductive ChannelAdminLogEventActionClass : Type :=
  | ChannelAdminLogEventActionDeleteMessage (Message : MessageClass)
  | ChannelAdminLogEventActionOther.

Record ChannelAdminLogEvent : Type := {
  ev_ID : Z;
  ev_Action : ChannelAdminLogEventActionClass
}.

Inductive InputFileLocationClass : Type :=
  | InputDocumentFileLocation (ID AccessHash : Z) (FileReference ThumbSize : bytes)
  | InputPhotoFileLocation (ID AccessHash : Z) (FileReference ThumbSize : bytes).

(** ** Errors and log entries *)

Inductive error : Type :=
  | errUnsupportedMedia
  | ErrDocument (details : string) (msg : Z)
  | ErrPhoto (details : string) (msg : Z)
  | ErrNoPhotoSizes (msg photo_id : Z)
  | ErrMkdirBase (dir : bytes)
  | ErrMkdirSub (dir : bytes)
  | ErrDownload (baseFilename : bytes) (msg : Z).

Global Instance error_eq_dec : EqDecision error.
Proof. solve_decision. Defined.

Inductive Level : Type := DebugLevel | InfoLevel | WarnLevel.

Inductive Field : Type :=
  | FInt (key : string) (v : Z)
  | FString (key : string) (v : bytes)
  | FError (e : error).

Record LogEntry : Type := {
  level : Level;
  message : string;
  fields : list Field
}.

(** ** The world outside: files, log, network, clock *)

Inductive Node : Type :=
  | Dir
  | File (content : bytes).

(** What [dl.Download(...).ToPath(ctx, path)] does: it writes the whole
    file, or fails, leaving nothing or a partial file behind. *)
Inductive Transfer : Type :=
  | Transferred (content : bytes)
  | TransferFailed (partial : option bytes).

(** The state of a run: the backup tree, the log written, the transfers
    asked of the network, and the variables of [main]'s loop ([handled]
    counts the events taken so far, to consult the environment). *)
Record World : Type := {
  files : gmap bytes Node;
  logged : list LogEntry;
  fetches : list (InputFileLocationClass * bytes);
  maxID : Z;
  total : Z;
  handled : nat
}.

(** What the run cannot decide itself.  [clock n] is what
    [time.Now().UnixNano()] reads while the [n]-th event is handled (a
    call of [saveMedia] gets at most one reading that matters: the
    placeholder of [sanitize] or the fallback name, never both);
    [zoneOffset t] is the offset of the local zone at the instant [t];
    [download n] is what the network does with the transfer asked for the
    [n]-th event; [adminLog k maxID] is the answer to the [k]-th request
    for a page, [None] for a failed request. *)
Record Env : Type := {
  clock : nat -> Z;
  zoneOffset : Z -> Z;
  unicodeLower : bytes -> bytes;
  download : nat -> InputFileLocationClass -> bytes -> Transfer;
  adminLog : nat -> Z -> option (list ChannelAdminLogEvent)
}.

(** A computation on the world: it finishes with a value, or the process
    dies of a panic in the world it had reached. *)
Inductive run (A : Type) : Type :=
  | Done (a : A) (w : World)
  | Crashed (w : World).
Arguments Done {A} a w.
Arguments Crashed {A} w.

Definition M (A : Type) : Type := World -> run A.

Definition ret {A} (a : A) : M A := fun w => Done a w.

Definition bind {A B} (m : M A) (k : A -> M B) : M B :=
  fun w => match m w with
           | Done a w' => k a w'
           | Crashed w' => Crashed w'
           end.

Notation "x <- m ;; k" := (bind m (fun x => k))
  (at level 100, m at next level, right associativity).
Notation "m ;;; k" := (bind m (fun _ => k))
  (at level 100, right associativity).

Definition lift {A} (o : outcome A) : M A :=
  fun w => match o with
           | Returns a => Done a w
           | Panics => Crashed w
           end.

Definition world_of {A} (r : run A) : World :=
  match r with Done _ w => w | Crashed w => w end.

Definition withFiles (f : gmap bytes Node) (w : World) : World :=
  {| files := f; logged := logged w; fetches := fetches w;
     maxID := maxID w; total := total w; handled := handled w |}.

Definition withLogged (l : list LogEntry) (w : World) : World :=
  {| files := files w; logged := l; fetches := fetches w;
     maxID := maxID w; total := total w; handled := handled w |}.

Definition withFetches (d : list (InputFileLocationClass * bytes)) (w : World) : World :=
  {| files := files w; logged := logged w; fetches := d;
     maxID := maxID w; total := total w; handled := handled w |}.

Definition withMaxID (i : Z) (w : World) : World :=
  {| files := files w; logged := logged w; fetches := fetches w;
     maxID := i; total := total w; handled := handled w |}.

Definition withTotal (t : Z) (w : World) : World :=
  {| files := files w; logged := logged w; fetches := fetches w;
     maxID := maxID w; total := t; handled := handled w |}.

Definition withHandled (n : nat) (w : World) : World :=
  {| files := files w; logged := logged w; fetches := fetches w;
     maxID := maxID w; total := total w; handled := n |}.

Definition logAt (l : Level) (text : string) (fs : list Field) : M unit :=
  fun w => Done tt (withLogged
                      (logged w ++ [{| level := l; message := text; fields := fs |}]) w).

Definition setFiles (f : gmap bytes Node) : M unit := fun w => Done tt (withFiles f w).

Definition getFiles : M (gmap bytes Node) := fun w => Done (files w) w.

Definition when (b : bool) (m : M unit) : M unit := if b then m else ret tt.

(** The transfer is asked of the network. *)
Definition recordFetch (loc : InputFileLocationClass) (path : bytes) : M unit :=
  fun w => Done tt (withFetches (fetches w ++ [(loc, path)]) w).

Definition setMaxID (i : Z) : M unit := fun w => Done tt (withMaxID i w).

Definition addTotal : M unit := fun w => Done tt (withTotal (total w + 1) w).

Definition getMaxID : M Z := fun w => Done (maxID w) w.

Definition getTotal : M Z := fun w => Done (total w) w.

(** The next event is taken; its number is returned. *)
Definition nextEvent : M nat := fun w => Done (handled w) (withHandled (S (handled w)) w).

Module GoOS.

(** [r] is a path reversed: what comes before the last ['/'] of the
    path, reversed. *)
Fixpoint beforeLastSep (r : bytes) : option bytes :=
  match r with
  | [] => None
  | c :: r' => if Ascii.eqb c "/"%char then Some r' else beforeLastSep r'
  end.

(** The directory a clean path lies in, when the path names one. *)
Definition parent (path : bytes) : option bytes :=
  match beforeLastSep (reverse path) with
  | Some r => if bool_decide (r = []) then None else Some (reverse r)
  | None => None
  end.

(** [os.MkdirAll]: nothing to do for a directory, an error (here
    [None]) if a file is in the way, else the parent first and then the
    directory itself.  The tree is taken to be writable. *)
Fixpoint mkdirAll (fuel : nat) (f : gmap bytes Node) (path : bytes)
  : option (gmap bytes Node) :=
  match f !! path with
  | Some Dir => Some f
  | Some (File _) => None
  | None =>
      match fuel with
      | O => None
      | S fuel' =>
          match parent path with
          | Some p =>
              match mkdirAll fuel' f p with
              | Some f' => Some (<[path := Dir]> f')
              | None => None
              end
          | None => Some (<[path := Dir]> f)
          end
      end
  end.

Definition MkdirAll (f : gmap bytes Node) (path : bytes) : option (gmap bytes Node) :=
  mkdirAll (length path) f path.

Inductive StatResult : Type :=
  | StatOk (n : Node)
  | StatNotExist
  | StatOtherError.

(** Some directory on the way to [path] is a regular file. *)
Fixpoint fileAbove (fuel : nat) (f : gmap bytes Node) (path : bytes) : bool :=
  match fuel with
  | O => false
  | S fuel' =>
      match parent path with
      | Some p =>
          match f !! p with
          | Some (File _) => true
          | _ => fileAbove fuel' f p
          end
      | None => false
      end
  end.

(** [os.Stat]: the error is [nil], or one for which [os.IsNotExist]
    holds, or another one (a file where a directory should be). *)
Definition Stat (f : gmap bytes Node) (path : bytes) : StatResult :=
  if fileAbove (length path) f path then StatOtherError
  else match f !! path with
       | Some n => StatOk n
       | None => StatNotExist
       end.

(** [os.Remove] of a path that is a regular file or absent (the code
    calls it only after [Stat] did not find the path); its error is
    dropped by the caller. *)
Definition Remove (f : gmap bytes Node) (path : bytes) : gmap bytes Node :=
  match f !! path with
  | Some (File _) => delete path f
  | _ => f
  end.

End GoOS.

Module GoTime.

(** [appendInt] of package [time]: sign, then at least [width] digits. *)
Definition pad (width : nat) (x : Z) : bytes :=
  let digits := itoa (Z.abs x) in
  (if x <? 0 then ["-"%char] else [])
  ++ repeat "0"%char (width - length digits) ++ digits.

(** The civil date of a day number counted from 1970-01-01. *)
Definition civil (days : Z) : Z * Z * Z :=
  let z := days + 719468 in
  let era := z / 146097 in
  let doe := z - era * 146097 in
  let yoe := (doe - doe / 1460 + doe / 36524 - doe / 146096) / 365 in
  let doy := doe - (365 * yoe + yoe / 4 - yoe / 100) in
  let mp := (5 * doy + 2) / 153 in
  let d := doy - (153 * mp + 2) / 5 + 1 in
  let m := if mp <? 10 then mp + 3 else mp - 9 in
  let y := yoe + era * 400 + (if m <=? 2 then 1 else 0) in
  (y, m, d).

(** [time.Unix(sec, 0).Format("20060102_150405")] in a zone that is
    [offset] seconds east of UTC at that instant, for the dates of
    messages, which are 32-bit numbers of seconds (far from the instants
    at which Go's own arithmetic on times overflows). *)
Definition format (offset sec : Z) : bytes :=
  let t := sec + offset in
  let '(y, m, d) := civil (t / 86400) in
  let r := t mod 86400 in
  pad 4 y ++ pad 2 m ++ pad 2 d ++ "_"%char ::
  pad 2 (r / 3600) ++ pad 2 (r mod 3600 / 60) ++ pad 2 (r mod 60).

End GoTime.

Import GoOS.

(** ** [filenameFromDocument] (lines 393-419) *)

(** The loop over the attributes: the first file-name attribute whose
    name is not empty. *)
Fixpoint firstFilename (attrs : list DocumentAttributeClass) : option bytes :=
  match attrs with
  | [] => None
  | DocumentAttributeFilename name :: rest =>
      if bool_decide (name = []) then firstFilename rest else Some name
  | DocumentAttributeOther :: rest => firstFilename rest
  end.

(** The characters of the raw string given to [strings.ContainsAny]. *)
Definition hostile : bytes := str "/\:*?" ++ "034"%char :: str "<>| ".

(** The extension taken from the MIME type (lines 402-415). *)
Definition mimeExt (E : Env) (MimeType : bytes) : bytes :=
  let ext := str "bin" in
  match Split MimeType "/"%char with
  | [_; part] =>
      if bool_decide (part = []) then ext else
      let cleanedPart := ToLower (unicodeLower E) part in
      let cleanedPart :=
        match Index cleanedPart ";"%char with
        | Some idx => take idx cleanedPart
        | None => cleanedPart
        end in
      let cleanedPart := TrimSpace cleanedPart in
      if (0 <? len cleanedPart) && (len cleanedPart <? 10)
         && negb (ContainsAny cleanedPart hostile)
      then cleanedPart else ext
  | _ => ext
  end.

Definition filenameFromDocument (E : Env) (now : Z) (doc : Document) : M bytes :=
  match firstFilename (doc_Attributes doc) with
  | Some name =>
      logAt DebugLevel "Found filename attribute"
        [FInt "doc_id" (doc_ID doc); FString "filename" name] ;;;
      lift (sanitize now name)
  | None =>
      let name := itoa (doc_ID doc) ++ "."%char :: mimeExt E (doc_MimeType doc) in
      logAt DebugLevel "Document has no filename attribute, generated name from MIME"
        [FInt "doc_id" (doc_ID doc); FString "mime_type" (doc_MimeType doc);
         FString "generated_name" name] ;;;
      lift (sanitize now name)
  end.

(** ** [inputLocation] (lines 293-390) *)

(** The three variables of the search for the largest photo size;
    [biggest] is the [*tg.PhotoSize] kept for the location (type, width,
    height, size), [None] for [nil]. *)
Record Selection : Type := {
  biggest : option (bytes * Z * Z * Z);
  biggestType : bytes;
  largestDim : Z
}.

Definition noSelection : Selection :=
  {| biggest := None; biggestType := []; largestDim := 0 |}.

Definition consider (sel : Selection) (currentDim : Z) (currentType : bytes)
    (currentSize : bytes * Z * Z * Z) : Selection :=
  if largestDim sel <? currentDim
  then {| biggest := Some currentSize; biggestType := currentType; largestDim := currentDim |}
  else sel.

(** One turn of the loop over [photo.Sizes] (lines 334-365). *)
Definition sizeStep (msgID : Z) (sel : Selection) (s : PhotoSizeClass) : M Selection :=
  match s with
  | PhotoSize t w h sz => ret (consider sel (max w h) t (t, w, h, sz))
  | PhotoSizeProgressive t w h => ret (consider sel (max w h) t (t, w, h, -1))
  | PhotoCachedSize t _ _ =>
      logAt DebugLevel "Skipping PhotoCachedSize" [FString "type" t; FInt "msg_id" msgID] ;;;
      ret sel
  | PhotoStrippedSize t =>
      logAt DebugLevel "Skipping PhotoStrippedSize" [FString "type" t; FInt "msg_id" msgID] ;;;
      ret sel
  | PhotoSizeEmpty _ | PhotoPathSize _ =>
      logAt WarnLevel "Unknown photo size type" [FInt "msg_id" msgID] ;;;
      ret sel
  end.

Fixpoint sizeLoop (msgID : Z) (sel : Selection) (sizes : list PhotoSizeClass) : M Selection :=
  match sizes with
  | [] => ret sel
  | s :: rest => sel' <- sizeStep msgID sel s ;; sizeLoop msgID sel' rest
  end.

(** What [inputLocation] returns: a location and a file name with a
    [nil] error, or an error.  [m.Document.AsNotEmpty()] (line 296) and
    [m.Photo.AsNotEmpty()] (line 318) are method calls on an interface
    value: when the payload is [nil] they panic, before anything is
    logged. *)
Inductive Located : Type :=
  | LocatedAt (loc : InputFileLocationClass) (filename : bytes)
  | NotLocated (err : error).

Definition inputLocation (E : Env) (now : Z) (msg : Message) : M Located :=
  match msg_Media msg with
  | Some (MessageMediaDocument m) =>
      match m with
      | None => lift Panics
      | Some (DocumentEmpty _) =>
          ret (NotLocated (ErrDocument "tg.DocumentEmpty" (msg_ID msg)))
      | Some (DocumentOf doc) =>
          name <- filenameFromDocument E now doc ;;
          when (bool_decide (len (doc_FileReference doc) = 0))
            (logAt WarnLevel "Document file reference is empty, download may fail"
               [FInt "doc_id" (doc_ID doc); FInt "msg_id" (msg_ID msg)]) ;;;
          ret (LocatedAt
                 (InputDocumentFileLocation (doc_ID doc) (doc_AccessHash doc)
                    (doc_FileReference doc) [])
                 name)
      end
  | Some (MessageMediaPhoto m) =>
      match m with
      | None => lift Panics
      | Some (PhotoEmpty _) => ret (NotLocated (ErrPhoto "tg.PhotoEmpty" (msg_ID msg)))
      | Some (PhotoOf photo) =>
          sel <- sizeLoop (msg_ID msg) noSelection (photo_Sizes photo) ;;
          match biggest sel with
          | None => ret (NotLocated (ErrNoPhotoSizes (msg_ID msg) (photo_ID photo)))
          | Some (_, w, h, _) =>
              if bool_decide (biggestType sel = [])
              then ret (NotLocated (ErrNoPhotoSizes (msg_ID msg) (photo_ID photo)))
              else
                logAt DebugLevel "Selected largest photo size"
                  [FString "type" (biggestType sel); FInt "width" w; FInt "height" h;
                   FInt "photo_id" (photo_ID photo)] ;;;
                when (bool_decide (len (photo_FileReference photo) = 0))
                  (logAt WarnLevel "Photo file reference is empty, download may fail"
                     [FInt "photo_id" (photo_ID photo); FInt "msg_id" (msg_ID msg)]) ;;;
                let filename := itoa (photo_ID photo) ++ "_"%char :: biggestType sel ++ str ".jpg" in
                ret (LocatedAt
                       (InputPhotoFileLocation (photo_ID photo) (photo_AccessHash photo)
                          (photo_FileReference photo) (biggestType sel))
                       filename)
          end
      end
  | Some MessageMediaOther | None =>
      logAt DebugLevel "Unsupported media type in message" [FInt "msg_id" (msg_ID msg)] ;;;
      ret (NotLocated errUnsupportedMedia)
  end.

(** ** [saveMedia] (lines 211-286) *)

Definition mediaDir : bytes := str "media_backup".

(** Lines 228-231: the name used when the locator gave none. *)
Definition fallbackFilename (now : Z) (msg : Message) : bytes :=
  itoa (msg_ID msg) ++ "_"%char :: itoa now ++ str ".dat".

(** Lines 233-235. *)
Definition baseFilenameOf (E : Env) (msg : Message) (filename : bytes) : bytes :=
  let timestamp := GoTime.format (zoneOffset E (msg_Date msg)) (msg_Date msg) in
  timestamp ++ "_"%char :: filename.

(** Lines 238-250; [None] is the branch that also logs a warning. *)
Definition subDirNameOf (msg : Message) : option bytes :=
  match msg_FromID msg with
  | Some (PeerUser from) => Some (itoa from)
  | _ =>
      match msg_PeerID msg with
      | Some (PeerUser peerUser) => Some (itoa peerUser)
      | Some (PeerChat peerChat) => Some (str "chat_" ++ itoa peerChat)
      | Some (PeerChannel peerChannel) => Some (str "channel_" ++ itoa peerChannel)
      | None => None
      end
  end.

Definition subDirOf (msg : Message) : bytes :=
  Join mediaDir (default (str "unknown_sender") (subDirNameOf msg)).

(** Line 259, for the name [filename] that lines 228-231 settled on. *)
Definition destPathOf (E : Env) (msg : Message) (filename : bytes) : bytes :=
  Join (subDirOf msg) (baseFilenameOf E msg filename).

(** Lines 270-285: the transfer straight to [destPath]; after a failure
    what was written is removed. *)
Definition fetchTo (E : Env) (n : nat) (loc : InputFileLocationClass) (msg : Message)
    (f : gmap bytes Node) (baseFilename destPath : bytes) : M (option error) :=
  logAt InfoLevel "Attempting to download media"
    [FString "filename" baseFilename; FInt "msg_id" (msg_ID msg);
     FString "destination" destPath] ;;;
  recordFetch loc destPath ;;;
  match download E n loc destPath with
  | TransferFailed partial =>
      let f := match partial with
               | Some content => <[destPath := File content]> f
               | None => f
               end in
      setFiles (Remove f destPath) ;;;
      ret (Some (ErrDownload baseFilename (msg_ID msg)))
  | Transferred content =>
      setFiles (<[destPath := File content]> f) ;;;
      logAt InfoLevel "Download successful" [FString "path" destPath] ;;;
      ret None
  end.

(** Lines 224-268 and on: directories, destination, the check for an
    existing file, then the transfer. *)
Definition store (E : Env) (n : nat) (loc : InputFileLocationClass) (msg : Message)
    (filename : bytes) : M (option error) :=
  f <- getFiles ;;
  match MkdirAll f mediaDir with
  | None => ret (Some (ErrMkdirBase mediaDir))
  | Some f =>
      setFiles f ;;;
      filename <-
        (if bool_decide (filename = []) then
           let filename := fallbackFilename (clock E n) msg in
           logAt WarnLevel "Generated fallback filename"
             [FString "filename" filename; FInt "msg_id" (msg_ID msg)] ;;;
           ret filename
         else ret filename) ;;
      let baseFilename := baseFilenameOf E msg filename in
      when (bool_decide (subDirNameOf msg = None))
        (logAt WarnLevel "Could not determine sender/peer ID for subdirectory"
           [FInt "msg_id" (msg_ID msg)]) ;;;
      let subDir := subDirOf msg in
      match MkdirAll f subDir with
      | None => ret (Some (ErrMkdirSub subDir))
      | Some f =>
          setFiles f ;;;
          let destPath := destPathOf E msg filename in
          match Stat f destPath with
          | StatOk _ =>
              logAt InfoLevel "File already exists, skipping download."
                [FString "path" destPath; FInt "msg_id" (msg_ID msg)] ;;;
              ret None
          | StatNotExist => fetchTo E n loc msg f baseFilename destPath
          | StatOtherError =>
              logAt WarnLevel "Error checking if file exists" [FString "path" destPath] ;;;
              fetchTo E n loc msg f baseFilename destPath
          end
      end
  end.

(** Both directories are there or can be made. *)
Definition dirsReady (msg : Message) (f : gmap bytes Node) : bool :=
  match MkdirAll f mediaDir with
  | Some f1 => match MkdirAll f1 (subDirOf msg) with Some _ => true | None => false end
  | None => false
  end.

(** [n] is the number of the call, for the clock and the network. *)
Definition saveMedia (E : Env) (n : nat) (msg : Message) : M (option error) :=
  located <- inputLocation E (clock E n) msg ;;
  match located with
  | NotLocated err =>
      if bool_decide (err = errUnsupportedMedia) then
        logAt DebugLevel "Skipping unsupported media type" [FInt "msg_id" (msg_ID msg)] ;;;
        ret None
      else
        logAt WarnLevel "Could not get input location"
          [FInt "msg_id" (msg_ID msg); FError err] ;;;
        ret (Some err)
  | LocatedAt loc filename => store E n loc msg filename
  end.

(** ** The loop of [main] (lines 142-199) *)

(** Lines 171-189: what is done with one event, the [n]-th of the run;
    the Boolean is [foundDeletedMedia]. *)
Definition handleEvent (E : Env) (n : nat) (found : bool) (ev : ChannelAdminLogEvent) : M bool :=
  match ev_Action ev with
  | ChannelAdminLogEventActionDeleteMessage (MessageOf msg) =>
      match msg_Media msg with
      | Some _ =>
          logAt InfoLevel "Found deleted message with media"
            [FInt "msg_id" (msg_ID msg); FInt "date" (msg_Date msg)] ;;;
          r <- saveMedia E n msg ;;
          match r with
          | Some err =>
              logAt WarnLevel "Failed to save media" [FInt "msg_id" (msg_ID msg); FError err] ;;;
              ret true
          | None =>
              addTotal ;;;
              logAt InfoLevel "Successfully processed/saved media for message"
                [FInt "msg_id" (msg_ID msg)] ;;;
              ret true
          end
      | None => ret found
      end
  | ChannelAdminLogEventActionDeleteMessage (MessageService id) =>
      logAt DebugLevel "Found deleted service message" [FInt "msg_id" id] ;;;
      ret found
  | ChannelAdminLogEventActionDeleteMessage (MessageEmpty _) => ret found
  | ChannelAdminLogEventActionOther =>
      logAt DebugLevel "Skipping non-delete admin log event" [] ;;;
      ret found
  end.

(** One turn of the loop over the events of a page (lines 169-190): the
    cursor first, then the event. *)
Definition processEvent (E : Env) (found : bool) (ev : ChannelAdminLogEvent) : M bool :=
  n <- nextEvent ;;
  setMaxID (ev_ID ev) ;;;
  handleEvent E n found ev.

Fixpoint processEvents (E : Env) (found : bool) (events : list ChannelAdminLogEvent) : M bool :=
  match events with
  | [] => ret found
  | ev :: rest => found' <- processEvent E found ev ;; processEvents E found' rest
  end.

(** How the paging loop ends: the log is exhausted, the request for a
    page failed, or (in the model only) the bound on pages was reached. *)
Inductive ScanEnd : Type :=
  | Exhausted
  | RequestFailed
  | MorePages.

(** The [for] loop of lines 142-201, for at most [pages] pages; [k]
    numbers the requests. *)
Fixpoint scan (E : Env) (pages k : nat) : M ScanEnd :=
  match pages with
  | O => ret MorePages
  | S pages' =>
      cursor <- getMaxID ;;
      logAt DebugLevel "Requesting admin log page" [FInt "max_id" cursor] ;;;
      match adminLog E k cursor with
      | None => ret RequestFailed
      | Some events =>
          logAt DebugLevel "Fetched admin log page"
            [FInt "event_count" (Z.of_nat (length events))] ;;;
          match events with
          | [] =>
              logAt InfoLevel "Reached end of admin log for delete events." [] ;;;
              saved <- getTotal ;;
              logAt InfoLevel "Finished processing admin log."
                [FInt "total_files_potentially_saved" saved] ;;;
              ret Exhausted
          | _ =>
              found <- processEvents E false events ;;
              when (negb found)
                (logAt DebugLevel
                   "Processed admin log batch, but no deleted messages *with media* were found in this batch."
                   []) ;;;
              scan E pages' (S k)
          end
      end
  end.

(** ** Concrete inputs for the examples *)

Definition emptyWorld : World :=
  {| files := ∅; logged := []; fetches := []; maxID := 0; total := 0; handled := 0 |}.

(** UTC, a clock that advances with every event, a network on which
    every second transfer breaks after two bytes, and an empty log. *)
Definition demoEnv : Env :=
  {| clock := fun n => 1000 + Z.of_nat n;
     zoneOffset := fun _ => 0;
     unicodeLower := fun s => s;
     download := fun n _ _ =>
       if Nat.even n then Transferred (str "data") else TransferFailed (Some (str "da"));
     adminLog := fun _ _ => Some [] |}.

Definition demoDocument (name mime : bytes) : Document :=
  {| doc_ID := 555; doc_AccessHash := 1; doc_FileReference := str "ref";
     doc_MimeType := mime;
     doc_Attributes := [DocumentAttributeOther; DocumentAttributeFilename name] |}.

Definition demoMessage (id : Z) (media : option MessageMediaClass) : Message :=
  {| msg_ID := id; msg_Date := 1700000000;
     msg_FromID := Some (PeerUser 42); msg_PeerID := Some (PeerChannel 7);
     msg_Media := media |}.

Definition documentMessage (id : Z) (name mime : bytes) : Message :=
  demoMessage id (Some (MessageMediaDocument (Some (DocumentOf (demoDocument name mime))))).

Definition deletion (id : Z) (msg : Message) : ChannelAdminLogEvent :=
  {| ev_ID := id; ev_Action := ChannelAdminLogEventActionDeleteMessage (MessageOf msg) |}.

(** The same with a log of two pages: the events 9 and 8, then 5. *)
Definition pagedEnv : Env :=
  {| clock := clock demoEnv;
     zoneOffset := zoneOffset demoEnv;
     unicodeLower := unicodeLower demoEnv;
     download := download demoEnv;
     adminLog := fun _ cursor =>
       if cursor =? 0 then
         Some [deletion 9 (documentMessage 1 (str "a.txt") (str "x/y"));
               deletion 8 (documentMessage 2 (str "b.txt") (str "x/y"))]
       else if cursor =? 8 then
         Some [{| ev_ID := 5; ev_Action := ChannelAdminLogEventActionOther |}]
       else Some [] |}.

(** The world after a first message with the file name ["a"] was saved. *)
Definition savedOnce : World :=
  world_of (saveMedia demoEnv 0 (documentMessage 1 (str "a") (str "x/y")) emptyWorld).

(** A name of 222 bytes whose extension has 221. *)
Definition longExtension : bytes := "a"%char :: "."%char :: repeat "b"%char 220.

(** ** Notions used in the statements *)

(** [m] only moves the world along [R], whether it finishes or dies. *)
Definition moves (R : relation World) {A} (m : M A) : Prop :=
  forall w, R w (world_of (m w)).

(** The cursor and the event count are as they were. *)
Definition sameCursor (w w' : World) : Prop :=
  maxID w' = maxID w /\ handled w' = handled w.

(** [t] is made of bytes of [s] and is not longer. *)
Definition part (t s : bytes) : Prop :=
  (forall P : ascii -> Prop, Forall P s -> Forall P t) /\ (length t <= length s)%nat.

Definition safeByte (c : ascii) : bool :=
  negb (Ascii.eqb c "/"%char) && negb (Ascii.eqb c "\"%char) && negb (isControl c).

Definition safeName (r : bytes) : Prop := Forall (fun c => safeByte c = true) r.

(** The replacements of [sanitize] leave the byte as it is. *)
Definition keptByte (c : ascii) : bool :=
  bool_decide
    (replacement
       ((fun c => if Ascii.eqb c "\"%char then "_"%char else c)
          ((fun c => if Ascii.eqb c "/"%char then "_"%char else c) c)) = [c]).

(** [m] appends the same entries to the log and gives the same outcome in
    every world, and touches nothing else. *)
Definition logsOnly {A} (m : M A) : Prop :=
  exists (l : list LogEntry) (r : outcome A),
    forall w, m w = match r with
                    | Returns a => Done a (withLogged (logged w ++ l) w)
                    | Panics => Crashed (withLogged (logged w ++ l) w)
                    end.

(** An entry put at the end of the log. *)
Definition logging (l : Level) (text : string) (fs : list Field) (w : World) : World :=
  withLogged (logged w ++ [{| level := l; message := text; fields := fs |}]) w.

(** The world in which the destination is looked up. *)
Definition prepared (msg : Message) (f : gmap bytes Node) (w : World) : World :=
  withFiles f
    (if bool_decide (subDirNameOf msg = None)
     then logging WarnLevel "Could not determine sender/peer ID for subdirectory"
            [FInt "msg_id" (msg_ID msg)] w
     else w).

(** [f'] has the regular files of [f], with their contents, and no other. *)
Definition sameRegularFiles (f f' : gmap bytes Node) : Prop :=
  forall q c, f' !! q = Some (File c) <-> f !! q = Some (File c).

(** The log grew only by entries other than the fallback warning of
    line 230. *)
Definition noFallbackLogged (w w' : World) : Prop :=
  exists l, logged w' = logged w ++ l /\
            Forall (fun e => message e <> "Generated fallback filename"%string) l.

(** A size that can be fetched, as the [*tg.PhotoSize] kept for it: type
    letter, width, height, size. *)
Definition candidate : Type := bytes * Z * Z * Z.

Definition tagOf (c : candidate) : bytes := c.1.1.1.

Definition dimOf (c : candidate) : Z := max c.1.1.2 c.1.2.

Definition resolvable (s : PhotoSizeClass) : option candidate :=
  match s with
  | PhotoSize t w h sz => Some (t, w, h, sz)
  | PhotoSizeProgressive t w h => Some (t, w, h, -1)
  | _ => None
  end.

(** In the words of the specification: the entry of largest [dim], the
    first one seen among equals. *)
Fixpoint firstLargest (cands : list candidate) : option candidate :=
  match cands with
  | [] => None
  | c :: rest =>
      match firstLargest rest with
      | Some b => if dimOf c <? dimOf b then Some b else Some c
      | None => Some c
      end
  end.

Definition photoLocated (photo : Photo) (c : candidate) : Located :=
  LocatedAt
    (InputPhotoFileLocation (photo_ID photo) (photo_AccessHash photo)
       (photo_FileReference photo) (tagOf c))
    (itoa (photo_ID photo) ++ "_"%char :: tagOf c ++ str ".jpg").

(** The selector as the specification states it: every resolvable size
    counts, and there is a failure only if there is none. *)
Definition claimedPhotoLocation (msgID : Z) (photo : Photo) : Located :=
  match firstLargest (omap resolvable (photo_Sizes photo)) with
  | Some c => photoLocated photo c
  | None => NotLocated (ErrNoPhotoSizes msgID (photo_ID photo))
  end.

(** The selector as amended: only sizes of positive [dim] count, and a
    chosen size without type letter is a failure too. *)
Definition amendedPhotoLocation (msgID : Z) (photo : Photo) : Located :=
  match firstLargest (filter (fun c => 0 < dimOf c) (omap resolvable (photo_Sizes photo))) with
  | Some c =>
      if bool_decide (tagOf c = []) then NotLocated (ErrNoPhotoSizes msgID (photo_ID photo))
      else photoLocated photo c
  | None => NotLocated (ErrNoPhotoSizes msgID (photo_ID photo))
  end.

(** The value part of [sizeStep]. *)
Definition pickStep (sel : Selection) (s : PhotoSizeClass) : Selection :=
  match resolvable s with
  | Some c => consider sel (dimOf c) (tagOf c) c
  | None => sel
  end.

Definition selected (c : candidate) : Selection :=
  {| biggest := Some c; biggestType := tagOf c; largestDim := dimOf c |}.

Definition photoMessage (id : Z) (sizes : list PhotoSizeClass) : Message :=
  demoMessage id
    (Some (MessageMediaPhoto
             (Some (PhotoOf {| photo_ID := 77; photo_AccessHash := 2;
                               photo_FileReference := str "ref";
                               photo_Sizes := sizes |})))).

Definition value {A} (r : run A) : option A :=
  match r with Done a _ => Some a | Crashed _ => None end.

(** The name handed to [sanitize] for a document. *)
Definition rawDocumentName (E : Env) (doc : Document) : bytes :=
  match firstFilename (doc_Attributes doc) with
  | Some name => name
  | None => itoa (doc_ID doc) ++ "."%char :: mimeExt E (doc_MimeType doc)
  end.

(** What [inputLocation] returns, [None] standing for a panic. *)
Definition located (E : Env) (now : Z) (msg : Message) : option Located :=
  match msg_Media msg with
  | Some (MessageMediaDocument None) | Some (MessageMediaPhoto None) => None
  | Some (MessageMediaDocument (Some (DocumentEmpty _))) =>
      Some (NotLocated (ErrDocument "tg.DocumentEmpty" (msg_ID msg)))
  | Some (MessageMediaDocument (Some (DocumentOf doc))) =>
      match sanitize now (rawDocumentName E doc) with
      | Returns name =>
          Some (LocatedAt
                  (InputDocumentFileLocation (doc_ID doc) (doc_AccessHash doc)
                     (doc_FileReference doc) [])
                  name)
      | Panics => None
      end
  | Some (MessageMediaPhoto (Some (PhotoEmpty _))) =>
      Some (NotLocated (ErrPhoto "tg.PhotoEmpty" (msg_ID msg)))
  | Some (MessageMediaPhoto (Some (PhotoOf photo))) =>
      Some (amendedPhotoLocation (msg_ID msg) photo)
  | Some MessageMediaOther | None => Some (NotLocated errUnsupportedMedia)
  end.

(** The name on which lines 228-231 settle. *)
Definition settledName (E : Env) (n : nat) (msg : Message) (filename : bytes) : bytes :=
  if bool_decide (filename = []) then fallbackFilename (clock E n) msg else filename.

(** The destination that the [n]-th call of [saveMedia] computes for
    [msg], if it gets that far. *)
Definition derivedPath (E : Env) (n : nat) (msg : Message) (w : World) : option bytes :=
  match value (inputLocation E (clock E n) msg w) with
  | Some (LocatedAt _ filename) => Some (destPathOf E msg (settledName E n msg filename))
  | _ => None
  end.

(** The candidate file name: the name that [inputLocation] hands to
    [saveMedia] (line 212), if it returns one. *)
Definition candidateFilename (E : Env) (now : Z) (msg : Message) (w : World)
  : option bytes :=
  match value (inputLocation E now msg w) with
  | Some (LocatedAt _ filename) => Some filename
  | _ => None
  end.

(** The name of the document of a message before it is sanitized. *)
Definition rawName (E : Env) (msg : Message) : option bytes :=
  match msg_Media msg with
  | Some (MessageMediaDocument (Some (DocumentOf doc))) => Some (rawDocumentName E doc)
  | _ => None
  end.

(** [sanitize] replaces the name by its time-stamped placeholder
    (lines 464-467). *)
Definition degenerate (raw : bytes) : bool :=
  negb (bool_decide (raw = [])) &&
  match truncate (clean raw) with
  | Returns t => bool_decide (t = []) || bool_decide (t = str ".") || bool_decide (t = str "..")
  | Panics => false
  end.

(** In the words of the specification: the explicit file-name attribute,
    if there is one that is not empty. *)
Definition explicitFilename (attrs : list DocumentAttributeClass) : option bytes :=
  head (filter (fun name => name <> [])
          (omap (fun a => match a with
                          | DocumentAttributeFilename name => Some name
                          | DocumentAttributeOther => None
                          end) attrs)).

(** What follows the first ['/'] of the MIME type. *)
Definition subtype (mime : bytes) : bytes :=
  match Index mime "/"%char with
  | Some i => drop (S i) mime
  | None => []
  end.

(** What precedes the first [';']. *)
Definition cutParameters (s : bytes) : bytes :=
  match Index s ";"%char with
  | Some i => take i s
  | None => s
  end.

(** One to nine bytes, none of them path-hostile. *)
Definition acceptable (e : bytes) : bool :=
  (0 <? len e) && (len e <? 10) && negb (ContainsAny e hostile).

(** The extension as the specification states it. *)
Definition claimedExt (E : Env) (mime : bytes) : bytes :=
  let e := cutParameters (ToLower (unicodeLower E) (subtype mime)) in
  if acceptable e then e else str "bin".

(** The file name as the specification states it: only an explicit name
    is sanitized. *)
Definition claimedFilename (E : Env) (now : Z) (doc : Document) : outcome bytes :=
  match explicitFilename (doc_Attributes doc) with
  | Some name => sanitize now name
  | None => Returns (itoa (doc_ID doc) ++ "."%char :: claimedExt E (doc_MimeType doc))
  end.

(** The extension as amended: a subtype is there only if the MIME type
    has exactly one ['/'], and white space around it is trimmed once the
    parameters are cut. *)
Definition amendedExt (E : Env) (mime : bytes) : bytes :=
  if bool_decide ("/"%char ∈ subtype mime) then str "bin" else
  let e := TrimSpace (cutParameters (ToLower (unicodeLower E) (subtype mime))) in
  if acceptable e then e else str "bin".

(** The file name as amended: the synthesized name is sanitized too. *)
Definition amendedFilename (E : Env) (now : Z) (doc : Document) : outcome bytes :=
  sanitize now
    (match explicitFilename (doc_Attributes doc) with
     | Some name => name
     | None => itoa (doc_ID doc) ++ "."%char :: amendedExt E (doc_MimeType doc)
     end).

(** The bytes that [itoa] writes: the sign and the ten digits. *)
Definition numeric (c : ascii) : bool :=
  Ascii.eqb c "-"%char || ((48 <=? byteval c) && (byteval c <=? 57))%N.

(** A byte at which all trimming of [sanitize] stops and which its
    replacements keep: ASCII, no white space, no dot. *)
Definition solid (c : ascii) : bool :=
  keptByte c && negb (asciiSpace c) && (byteval c <? 128)%N && negb (Ascii.eqb c "."%char).

(** The count of saved files is as it was. *)
Definition sameTotal (w w' : World) : Prop := total w' = total w.

(** The deletion of a message that carries a medium: the events for
    which [saveMedia] is called. *)
Definition mediaEvent (ev : ChannelAdminLogEvent) : bool :=
  match ev_Action ev with
  | ChannelAdminLogEventActionDeleteMessage (MessageOf msg) =>
      match msg_Media msg with Some _ => true | None => false end
  | _ => false
  end.

(** What makes the process die while a message is handled: a document
    or photo medium without payload, or a document whose file-name
    attribute has more than 221 bytes and, once cleaned, an extension of
    more than 220. *)
Definition fatalMedia (msg : Message) : Prop :=
  msg_Media msg = Some (MessageMediaDocument None) \/
  msg_Media msg = Some (MessageMediaPhoto None) \/
  exists doc name,
    msg_Media msg = Some (MessageMediaDocument (Some (DocumentOf doc))) /\
    firstFilename (doc_Attributes doc) = Some name /\
    maxLen < len (Ext (clean name)) /\ maxLen + 1 < len name.

(** Every regular file of [f'] is one of [f], with the same content. *)
Definition noNewRegularFiles (f f' : gmap bytes Node) : Prop :=
  forall q c, f' !! q = Some (File c) -> f !! q = Some (File c).

(** The name of one entry of a directory: not empty, no separator,
    neither [.] nor [..]. *)
Definition simpleElement (e : bytes) : Prop :=
  e <> [] /\ ("/"%char ∉ e) /\ e <> str "." /\ e <> str "..".

(** ** The monad and what a computation leaves alone *)

Section Frames.

Context (R : relation World) `{!PreOrder R}.

Lemma moves_ret {A} (a : A) : moves R (ret a).
Proof. intros w. simpl. reflexivity. Qed.

Lemma moves_lift {A} (o : outcome A) : moves R (lift o).
Proof. intros w. destruct o; simpl; reflexivity. Qed.

Lemma moves_bind {A B} (m : M A) (k : A -> M B) :
  moves R m -> (forall a, moves R (k a)) -> moves R (bind m k).
Proof.
  intros Hm Hk w. unfold bind. specialize (Hm w).
  destruct (m w) as [a w'|w']; simpl in *; [|done].
  etrans; [exact Hm|apply Hk].
Qed.

Lemma moves_when (b : bool) (m : M unit) : moves R m -> moves R (when b m).
Proof. destruct b; simpl; auto using moves_ret. Qed.

Lemma moves_getFiles : moves R getFiles.
Proof. intros w. simpl. reflexivity. Qed.

End Frames.

(** Breaks a computation of the pipeline down to its primitive steps;
    [prim] settles those. *)
Ltac moves_with prim :=
  repeat first
    [ match goal with |- PreOrder _ => apply _ end
    | progress prim
    | apply moves_ret | apply moves_lift | apply moves_getFiles
    | apply moves_when
    | apply moves_bind; [| |intros ?]
    | match goal with
      | |- moves _ (match ?x with _ => _ end) => destruct x
      | |- moves _ (let _ := _ in _) => cbv zeta
      end ].

(** *** The loop variables are [main]'s own *)

Global Instance sameCursor_preorder : PreOrder sameCursor.
Proof.
  split.
  - intros w. by split.
  - intros w1 w2 w3 [? ?] [? ?]. split; congruence.
Qed.

Lemma sameCursor_logAt l text fs : moves sameCursor (logAt l text fs).
Proof. intros w. by split. Qed.

Lemma sameCursor_setFiles f : moves sameCursor (setFiles f).
Proof. intros w. by split. Qed.

Lemma sameCursor_recordFetch loc path : moves sameCursor (recordFetch loc path).
Proof. intros w. by split. Qed.

Lemma sameCursor_addTotal : moves sameCursor addTotal.
Proof. intros w. by split. Qed.

Ltac sameCursor_prim :=
  first [ apply sameCursor_logAt | apply sameCursor_setFiles
        | apply sameCursor_recordFetch | apply sameCursor_addTotal ].

Lemma sameCursor_sizeLoop id sizes sel : moves sameCursor (sizeLoop id sel sizes).
Proof.
  revert sel. induction sizes as [|s sizes IH]; intros sel; simpl.
  - apply moves_ret, _.
  - apply moves_bind; [apply _| |intros ?; apply IH].
    unfold sizeStep. moves_with sameCursor_prim.
Qed.

Lemma sameCursor_inputLocation E now msg : moves sameCursor (inputLocation E now msg).
Proof.
  unfold inputLocation, filenameFromDocument.
  moves_with ltac:(first [apply sameCursor_sizeLoop | sameCursor_prim]).
Qed.

Lemma sameCursor_fetchTo E n loc msg f base dest :
  moves sameCursor (fetchTo E n loc msg f base dest).
Proof. unfold fetchTo. moves_with sameCursor_prim. Qed.

Lemma sameCursor_store E n loc msg filename : moves sameCursor (store E n loc msg filename).
Proof.
  unfold store. moves_with ltac:(first [apply sameCursor_fetchTo | sameCursor_prim]).
Qed.

Lemma sameCursor_saveMedia E n msg : moves sameCursor (saveMedia E n msg).
Proof.
  unfold saveMedia.
  moves_with ltac:(first [apply sameCursor_inputLocation | apply sameCursor_store
                         | sameCursor_prim]).
Qed.

Lemma sameCursor_handleEvent E n found ev : moves sameCursor (handleEvent E n found ev).
Proof.
  unfold handleEvent.
  moves_with ltac:(first [apply sameCursor_saveMedia | sameCursor_prim]).
Qed.

(** Whatever becomes of an event, the cursor is its ID from the moment
    it is taken. *)
Lemma processEvent_cursor E found ev w :
  maxID (world_of (processEvent E found ev w)) = ev_ID ev /\
  handled (world_of (processEvent E found ev w)) = S (handled w).
Proof.
  unfold processEvent, bind, nextEvent, setMaxID.
  pose proof (sameCursor_handleEvent E (handled w) found ev
                (withMaxID (ev_ID ev) (withHandled (S (handled w)) w))) as [Hm Hh].
  destruct (handleEvent _ _ _ _ _); simpl in *; by rewrite Hm, Hh.
Qed.

(** *** C3 *)

(** C3. The cursor [maxID] is set to an event's ID before anything is done
    with the event, so when a page has been gone through the cursor is the
    ID of its last event, whatever errors the events met; and should the
    process die inside an event, the cursor had already reached that
    event. *)
Theorem cursor_after_page E found events w :
  match processEvents E found events w with
  | Done _ w' =>
      maxID w' = from_option ev_ID (maxID w) (last events) /\
      handled w' = (handled w + length events)%nat
  | Crashed w' =>
      exists before ev rest,
        events = before ++ ev :: rest /\
        maxID w' = ev_ID ev /\
        handled w' = S (handled w + length before)
  end.
Proof.
  revert found w. induction events as [|ev events IH]; intros found w.
  - simpl. split; [done|lia].
  - cbn [processEvents]. unfold bind at 1.
    destruct (processEvent_cursor E found ev w) as [Hm Hh].
    destruct (processEvent E found ev w) as [found' w1|w1]; simpl in Hm, Hh.
    + specialize (IH found' w1).
      destruct (processEvents E found' events w1) as [b w2|w2].
      * destruct IH as [IHm IHh]. split.
        -- rewrite IHm. destruct events as [|ev' events']; [done|].
           rewrite last_cons_cons.
           destruct (last (ev' :: events')) eqn:Hl; [done|].
           by apply last_None in Hl.
        -- rewrite IHh, Hh. simpl. lia.
      * destruct IH as (before & ev' & rest & -> & ? & IHh).
        exists (ev :: before), ev', rest. split; [done|]. split; [done|].
        rewrite IHh, Hh. simpl. lia.
    + exists [], ev, events. split; [done|]. split; [done|].
      rewrite Hh. simpl. lia.
Qed.

(** ** [sanitize] *)

(** *** Trimming and cutting keep a part of the string *)

Lemma trimWith_suffix step fuel s :
  (forall s t, step s = Some t -> t `suffix_of` s) ->
  trimWith step fuel s `suffix_of` s.
Proof.
  intros Hstep. revert s. induction fuel as [|fuel IH]; intros s; simpl; [done|].
  destruct (step s) as [t|] eqn:Hs; [|done].
  etrans; [apply IH|by apply Hstep].
Qed.

Lemma spacePrefix_suffix s t : spacePrefix s = Some t -> t `suffix_of` s.
Proof.
  unfold spacePrefix. intros H.
  repeat case_match; simplify_eq;
    repeat (first [reflexivity | apply suffix_cons_r]).
Qed.

Lemma spaceSuffixRev_suffix s t : spaceSuffixRev s = Some t -> t `suffix_of` s.
Proof.
  unfold spaceSuffixRev. intros H.
  repeat case_match; simplify_eq;
    repeat (first [reflexivity | apply suffix_cons_r]).
Qed.

Lemma TrimLeftSpace_suffix s : TrimLeftSpace s `suffix_of` s.
Proof. apply trimWith_suffix, spacePrefix_suffix. Qed.

Lemma TrimRightSpace_prefix s : TrimRightSpace s `prefix_of` s.
Proof.
  unfold TrimRightSpace. apply prefix_suffix_reverse.
  rewrite reverse_involutive. apply trimWith_suffix, spaceSuffixRev_suffix.
Qed.

Lemma TrimLeftByte_suffix c s : TrimLeftByte c s `suffix_of` s.
Proof.
  induction s as [|x s IH]; simpl; [done|].
  destruct (Ascii.eqb x c); [by apply suffix_cons_r|done].
Qed.

Lemma TrimRightByte_prefix c s : TrimRightByte c s `prefix_of` s.
Proof.
  unfold TrimRightByte. apply prefix_suffix_reverse.
  rewrite reverse_involutive. apply TrimLeftByte_suffix.
Qed.

Global Instance part_preorder : PreOrder part.
Proof.
  split.
  - intros s. by split.
  - intros s1 s2 s3 [H1 L1] [H2 L2]. split; [auto|lia].
Qed.

Lemma part_suffix t s : t `suffix_of` s -> part t s.
Proof.
  intros [k ->]. split.
  - intros P H. by apply Forall_app in H as [_ ?].
  - rewrite length_app. lia.
Qed.

Lemma part_prefix t s : t `prefix_of` s -> part t s.
Proof.
  intros [k ->]. split.
  - intros P H. by apply Forall_app in H as [? _].
  - rewrite length_app. lia.
Qed.

Lemma part_app t1 t2 s1 s2 : part t1 s1 -> part t2 s2 -> part (t1 ++ t2) (s1 ++ s2).
Proof.
  intros [H1 L1] [H2 L2]. split.
  - intros P H. apply Forall_app in H as [? ?]. apply Forall_app. auto.
  - rewrite !length_app. lia.
Qed.

Lemma TrimSpace_part s : part (TrimSpace s) s.
Proof.
  unfold TrimSpace. etrans.
  - apply part_prefix, TrimRightSpace_prefix.
  - apply part_suffix, TrimLeftSpace_suffix.
Qed.

Lemma Trim_part s c : part (Trim s c) s.
Proof.
  unfold Trim. etrans.
  - apply part_prefix, TrimRightByte_prefix.
  - apply part_suffix, TrimLeftByte_suffix.
Qed.

(** *** [filepath.Ext] *)

Lemma lastDot_lt r n : lastDot r = Some n -> (n < length r)%nat.
Proof.
  revert n. induction r as [|c r IH]; intros n; simpl; [done|].
  destruct (Ascii.eqb c "."); [intros [= <-]; lia|].
  destruct (Ascii.eqb c "/"); [done|].
  destruct (lastDot r) as [m|]; simpl; [|done].
  intros [= <-]. specialize (IH m eq_refl). lia.
Qed.

Lemma lastDot_app_lt r r' n :
  lastDot (r ++ r') = Some n -> "."%char ∉ r' -> (n < length r)%nat.
Proof.
  revert n. induction r as [|c r IH]; intros n H Hno; simpl in *.
  - exfalso. revert n H. induction r' as [|c r' IH']; intros n; simpl; [done|].
    destruct (Ascii.eqb c ".") eqn:Hc.
    { apply Ascii.eqb_eq in Hc as ->. destruct Hno. by left. }
    destruct (Ascii.eqb c "/"); [done|].
    destruct (lastDot r') as [m|] eqn:Hm; simpl; [|done].
    intros _. eapply IH'; [|done]. intros ?. apply Hno. by right.
  - destruct (Ascii.eqb c "."); [injection H as <-; lia|].
    destruct (Ascii.eqb c "/"); [done|].
    destruct (lastDot (r ++ r')) as [m|] eqn:Hm; simpl in H; [|done].
    injection H as <-. specialize (IH m eq_refl Hno). lia.
Qed.

Lemma Ext_length path : (length (Ext path) <= length path)%nat.
Proof.
  unfold Ext. destruct (lastDot (reverse path)); simpl; [|lia].
  rewrite length_drop. lia.
Qed.

Lemma Ext_suffix path : Ext path `suffix_of` path.
Proof.
  unfold Ext. destruct (lastDot (reverse path)); [apply suffix_drop|apply suffix_nil].
Qed.

(** With no dot in [p], the extension of [p ++ q] lies in [q]. *)
Lemma Ext_app_length p q : "."%char ∉ p -> (length (Ext (p ++ q)) <= length q)%nat.
Proof.
  intros Hno. unfold Ext. rewrite reverse_app.
  destruct (lastDot (reverse q ++ reverse p)) as [n|] eqn:Hn; simpl; [|lia].
  apply lastDot_app_lt in Hn.
  - rewrite length_reverse in Hn. rewrite length_drop, length_app. lia.
  - by rewrite elem_of_reverse.
Qed.

Lemma baseName_prefix u : baseName u `prefix_of` u.
Proof. unfold baseName. case_bool_decide; [done|apply prefix_take]. Qed.

Lemma baseName_app_length p q :
  "."%char ∉ p -> (length p <= length (baseName (p ++ q)))%nat.
Proof.
  intros Hno. unfold baseName. case_bool_decide.
  - rewrite length_app. lia.
  - pose proof (Ext_app_length p q Hno). rewrite length_take, length_app. lia.
Qed.

Lemma Ext_split s : take (length s - length (Ext s)) s ++ Ext s = s.
Proof.
  destruct (Ext_suffix s) as [k Hk]. rewrite Hk at 1 3.
  rewrite length_app, Nat.add_sub, take_app_length. by rewrite <-Hk.
Qed.

Lemma baseName_app_prefix p q : "."%char ∉ p -> p `prefix_of` baseName (p ++ q).
Proof.
  intros Hno. pose proof (Ext_app_length p q Hno) as Hl.
  unfold baseName. case_bool_decide; [by apply prefix_app_r|].
  rewrite take_app, take_ge by (rewrite ?length_app; lia).
  by apply prefix_app_r.
Qed.

(** *** What [sanitize] returns *)

(** A Boolean property of bytes holds if it holds of the 256 of them. *)
Lemma all_bytes (P : ascii -> bool) :
  forallb (fun n => P (ascii_of_nat n)) (seq 0 256) = true -> forall c, P c = true.
Proof.
  intros H c. rewrite forallb_forall in H.
  rewrite <-(ascii_nat_embedding c). apply H, in_seq.
  pose proof (nat_ascii_bounded c). lia.
Qed.

Lemma replacement_safe c :
  safeName (replacement
              ((fun c => if Ascii.eqb c "\"%char then "_"%char else c)
                 ((fun c => if Ascii.eqb c "/"%char then "_"%char else c) c))).
Proof.
  apply Forall_forall. intros x Hx. apply list_elem_of_In in Hx. revert x Hx.
  apply forallb_forall. revert c. apply all_bytes. by vm_compute.
Qed.

Lemma clean_part s :
  part (clean s)
    (replacerReplace (ReplaceAll (ReplaceAll s "/"%char "_"%char) "\"%char "_"%char)).
Proof. unfold clean. etrans; [apply Trim_part|apply TrimSpace_part]. Qed.

Lemma clean_safe s : safeName (clean s).
Proof.
  apply clean_part. unfold replacerReplace, ReplaceAll.
  apply Forall_bind, Forall_fmap, Forall_fmap, Forall_forall.
  intros c _. apply replacement_safe.
Qed.

Lemma replacement_length c : (length (replacement c) <= 1)%nat.
Proof. unfold replacement. repeat case_match; simpl; lia. Qed.

Lemma clean_length s : (length (clean s) <= length s)%nat.
Proof.
  etrans; [apply clean_part|].
  unfold replacerReplace, ReplaceAll.
  induction s as [|c s IH]; [done|].
  cbn [fmap list_fmap mbind list_bind]. rewrite length_app.
  pose proof (replacement_length
    ((fun c => if Ascii.eqb c "\"%char then "_"%char else c)
       ((fun c => if Ascii.eqb c "/"%char then "_"%char else c) c))).
  simpl in *. lia.
Qed.

(** The length limit panics exactly when name and extension are both
    longer than [maxLen]; else it returns at most [maxLen] bytes. *)
Lemma truncate_cases s :
  (truncate s = Panics /\ maxLen < len s /\ maxLen < len (Ext s)) \/
  (exists r, truncate s = Returns r /\ part r s /\ len r <= maxLen /\
             (maxLen < len s -> len (Ext s) <= maxLen)).
Proof.
  unfold truncate. pose proof (Ext_length s) as He. pose proof (Ext_split s) as Hs.
  destruct (maxLen <? len s) eqn:Hlong.
  2:{ right. exists s. apply Z.ltb_ge in Hlong. split_and!; [done|done|lia|lia]. }
  apply Z.ltb_lt in Hlong.
  set (ext := Ext s) in *. set (base := take (length s - length ext) s) in *.
  assert (len base = len s - len ext) as Hb.
  { unfold len, base. rewrite length_take. lia. }
  assert ((maxLen - len ext <? len base) = true) as -> by (apply Z.ltb_lt; lia).
  unfold slice_to.
  destruct (maxLen - len ext <? 0) eqn:Hneg; simpl.
  { left. apply Z.ltb_lt in Hneg. split_and!; [done|lia|lia]. }
  apply Z.ltb_ge in Hneg.
  assert ((len base <? maxLen - len ext) = false) as -> by (apply Z.ltb_ge; lia).
  simpl.
  assert (len (take (Z.to_nat (maxLen - len ext)) base ++ ext) = maxLen) as Hl.
  { unfold len in *. rewrite length_app, length_take. lia. }
  rewrite Hl, Z.ltb_irrefl.
  right. eexists. split; [done|]. split; [|lia].
  assert (part (take (Z.to_nat (maxLen - len ext)) base ++ ext) (base ++ ext)) as Hp.
  { apply part_app; [|done]. apply part_prefix, prefix_take. }
  by rewrite Hs in Hp.
Qed.

Lemma digitsOf_S fuel n :
  digitsOf (S fuel) n =
  (if n <? 10 then [] else digitsOf fuel (n / 10)) ++ [ascii_of_N (48 + Z.to_N (n mod 10))].
Proof. reflexivity. Qed.

Lemma digitsOf_safe fuel n : safeName (digitsOf fuel n).
Proof.
  revert n. induction fuel as [|fuel IH]; intros n; [constructor|rewrite digitsOf_S].
  apply Forall_app. split; [destruct (n <? 10); [constructor|apply IH]|].
  constructor; [|constructor].
  pose proof (Z.mod_pos_bound n 10 eq_refl) as Hm.
  assert (n mod 10 = 0 \/ n mod 10 = 1 \/ n mod 10 = 2 \/ n mod 10 = 3 \/ n mod 10 = 4 \/
          n mod 10 = 5 \/ n mod 10 = 6 \/ n mod 10 = 7 \/ n mod 10 = 8 \/ n mod 10 = 9)
    as Hd by lia.
  destruct_or! Hd; rewrite Hd; reflexivity.
Qed.

Lemma digitsOf_length fuel n : (length (digitsOf fuel n) <= fuel)%nat.
Proof.
  revert n. induction fuel as [|fuel IH]; intros n; [done|rewrite digitsOf_S].
  rewrite length_app. destruct (n <? 10); simpl; [lia|].
  specialize (IH (n / 10)). lia.
Qed.

Lemma itoa_safe n : safeName (itoa n).
Proof.
  unfold itoa. apply Forall_app. split; [|apply digitsOf_safe].
  destruct (n <? 0); by repeat constructor.
Qed.

Lemma itoa_length n : (1 <= length (itoa n) <= 21)%nat.
Proof.
  unfold itoa. rewrite length_app.
  pose proof (digitsOf_length 20 (Z.abs n)).
  assert (1 <= length (digitsOf 20 (Z.abs n)))%nat.
  { rewrite digitsOf_S, length_app. simpl. lia. }
  destruct (n <? 0); simpl; lia.
Qed.

Lemma reserved_no_underscore n : n ∈ reservedNames -> "_"%char ∉ n.
Proof.
  revert n. apply Forall_forall. vm_compute.
  repeat constructor; intros H; repeat (apply elem_of_cons in H as [H|H]; [done|]);
    by apply elem_of_nil in H.
Qed.

(** A name with an underscore before its first dot is not reserved. *)
Lemma not_reserved_underscore p q :
  "."%char ∉ p -> "_"%char ∈ p -> baseName (p ++ q) ∉ reservedNames.
Proof.
  intros Hno Hu Hin. apply reserved_no_underscore in Hin. apply Hin.
  destruct (baseName_app_prefix p q Hno) as [k ->].
  apply elem_of_app. by left.
Qed.

Lemma isReserved_underscore s : isReserved ("_"%char :: s) = false.
Proof.
  unfold isReserved. apply bool_decide_eq_false.
  change (ToUpper ("_"%char :: s)) with (["_"%char] ++ ToUpper s).
  apply not_reserved_underscore; [|by left].
  intros H. apply list_elem_of_singleton in H. done.
Qed.

Lemma isReserved_placeholder now : isReserved (str "sanitized_file_" ++ itoa now) = false.
Proof.
  unfold isReserved, ToUpper. apply bool_decide_eq_false. rewrite fmap_app.
  apply not_reserved_underscore.
  - vm_compute. intros H.
    repeat (apply elem_of_cons in H as [H|H]; [done|]). by apply elem_of_nil in H.
  - vm_compute. do 9 right. left.
Qed.

(** Whenever [sanitize] returns, the name is not empty, has no path
    separator and no control character, is at most [maxLen] bytes long,
    or one more with the underscore put before a reserved name, and its
    base name is not reserved. *)
Lemma sanitize_returns_safe now x r :
  sanitize now x = Returns r ->
  r <> [] /\ safeName r /\ len r <= maxLen + 1 /\ isReserved r = false /\
  (maxLen < len r -> exists r', r = "_"%char :: r' /\ isReserved r' = true).
Proof.
  unfold sanitize. case_bool_decide as Hx.
  { intros [= <-]. split_and!; [done| |by vm_compute|by vm_compute|].
    - apply Forall_forall. intros c Hc. apply list_elem_of_In in Hc. revert c Hc.
      apply forallb_forall. by vm_compute.
    - intros H. by vm_compute in H. }
  destruct (truncate_cases (clean x)) as [(-> & _)|(t & -> & Hpart & Hlen & _)]; [done|].
  cbn [obind]. pose proof (clean_safe x) as Hsafe. apply Hpart in Hsafe.
  destruct (bool_decide (t = []) || bool_decide (t = str ".") || bool_decide (t = str ".."))
    eqn:Hdeg.
  - intros [= <-]. pose proof (itoa_length now) as Hn.
    assert (len (str "sanitized_file_" ++ itoa now) <= 36) as Hl.
    { unfold len. rewrite length_app. simpl. lia. }
    split_and!.
    + done.
    + repeat (constructor; [done|]). apply itoa_safe.
    + apply (Z.le_trans _ 36); [exact Hl|done].
    + apply isReserved_placeholder.
    + intros Hlong. exfalso. apply (Z.lt_irrefl maxLen).
      apply (Z.lt_le_trans _ _ _ Hlong), (Z.le_trans _ 36); [exact Hl|done].
  - apply orb_false_iff in Hdeg as [Hdeg _]. apply orb_false_iff in Hdeg as [Hne _].
    apply bool_decide_eq_false in Hne.
    destruct (isReserved t) eqn:Hres; intros [= <-].
    + split_and!; [done| |unfold len in *; simpl; lia|apply isReserved_underscore|].
      * constructor; [done|exact Hsafe].
      * intros _. by exists t.
    + split_and!; [done|done|lia|done|]. intros ?. lia.
Qed.

(** [sanitize] panics exactly on a name whose cleaned form and whose
    extension are both longer than [maxLen]. *)
Lemma sanitize_panics_iff now x :
  sanitize now x = Panics <-> maxLen < len (clean x) /\ maxLen < len (Ext (clean x)).
Proof.
  unfold sanitize. case_bool_decide as Hx.
  { subst x. split; [done|]. intros [H _]. by vm_compute in H. }
  destruct (truncate_cases (clean x)) as [(-> & ? & ?)|(t & -> & _ & _ & Hext)]; [done|].
  cbn [obind]. split.
  - repeat case_match; done.
  - intros [Hl He]. specialize (Hext Hl). lia.
Qed.

(** A name of at most [maxLen] bytes is always taken. *)
Lemma sanitize_returns_short now x :
  len x <= maxLen -> exists r, sanitize now x = Returns r.
Proof.
  intros Hx. destruct (sanitize now x) as [r|] eqn:Hs; [by exists r|].
  apply sanitize_panics_iff in Hs as [Hl _].
  pose proof (clean_length x). unfold len in *. lia.
Qed.

(** *** C1 *)

(** C1. [sanitize] is meant to return, for every input, a safe name of at
    most 220 bytes.  On a name of 222 bytes whose extension has 221 the
    code slices [base[:maxLen-len(ext)]] with the bound -1 (line 454) and
    panics: no name is returned. *)
Theorem sanitize_panics_on_long_extension now :
  len longExtension = 222 /\ len (Ext (clean longExtension)) = 221 /\
  sanitize now longExtension = Panics.
Proof. by vm_compute. Qed.

(** The bound itself is missed by one when a name cut to [maxLen] bytes
    has a reserved base name: the underscore comes on top. *)
Example sanitize_reserved_overlong now :
  exists r, sanitize now (str "con." ++ repeat "a"%char 216) = Returns r /\ len r = 221.
Proof. eexists. by vm_compute. Qed.

(** The bytes that the replacements put out are left alone by them. *)
Lemma replacement_kept c :
  Forall (fun c => keptByte c = true)
    (replacement
       ((fun c => if Ascii.eqb c "\"%char then "_"%char else c)
          ((fun c => if Ascii.eqb c "/"%char then "_"%char else c) c))).
Proof.
  apply Forall_forall. intros x Hx. apply list_elem_of_In in Hx. revert x Hx.
  apply forallb_forall. revert c. apply all_bytes. by vm_compute.
Qed.

Lemma replacements_kept t :
  Forall (fun c => keptByte c = true) t ->
  replacerReplace (ReplaceAll (ReplaceAll t "/"%char "_"%char) "\"%char "_"%char) = t.
Proof.
  unfold replacerReplace, ReplaceAll.
  induction 1 as [|c t Hc _ IH]; [done|].
  cbn [fmap list_fmap mbind list_bind]. apply bool_decide_eq_true in Hc.
  simpl in *. by rewrite Hc, IH.
Qed.

(** What the failure of idempotence comes down to: a name that went
    through the plain branch and has neither white space nor dots at its
    ends is returned unchanged by a second pass. *)
Lemma sanitize_idempotent_on_trimmed now x r :
  plainBranch x = true ->
  sanitize now x = Returns r ->
  TrimSpace r = r -> Trim r "."%char = r ->
  sanitize now r = Returns r.
Proof.
  unfold plainBranch, sanitize. case_bool_decide as Hx; [done|]. simpl.
  destruct (truncate_cases (clean x)) as [(-> & _)|(t & -> & Hpart & Hlen & _)]; [done|].
  cbn [obind]. intros Hplain. apply andb_true_iff in Hplain as [Hdeg Hres].
  apply negb_true_iff in Hdeg, Hres. rewrite Hdeg, Hres. intros [= ->] Hsp Hdot.
  assert (clean r = r) as Hclean.
  { unfold clean. rewrite replacements_kept, Hsp; [done|].
    apply Hpart, clean_part. unfold replacerReplace, ReplaceAll.
    apply Forall_bind, Forall_fmap, Forall_fmap, Forall_forall.
    intros c _. apply replacement_kept. }
  assert (truncate r = Returns r) as Htr.
  { unfold truncate. by assert ((maxLen <? len r) = false) as -> by (apply Z.ltb_ge; lia). }
  pose proof Hdeg as Hne.
  apply orb_false_iff in Hne as [Hne _]. apply orb_false_iff in Hne as [Hne _].
  apply bool_decide_eq_false in Hne.
  rewrite bool_decide_eq_false_2 by done. rewrite Hclean, Htr. cbn [obind].
  by rewrite Hdeg, Hres.
Qed.

(** *** C6 *)

(** C6. [sanitize] applied twice should give what it gives applied once,
    outside the empty, placeholder and reserved-name branches.  The dots
    are trimmed after the white space (lines 444-445), so [". a ."] keeps
    the blanks around [a], and a second pass removes them. *)
Theorem sanitize_not_idempotent now :
  plainBranch (str ". a .") = true /\ plainBranch (str " a ") = true /\
  sanitize now (str ". a .") = Returns (str " a ") /\
  sanitize now (str " a ") = Returns (str "a").
Proof. by vm_compute. Qed.

(** ** What the locator does to the world: it writes to the log *)

Lemma withLogged_nil w : withLogged (logged w ++ []) w = w.
Proof. destruct w. unfold withLogged. simpl. by rewrite app_nil_r. Qed.

Lemma withLogged_app l1 l2 w :
  withLogged (logged (withLogged (logged w ++ l1) w) ++ l2) (withLogged (logged w ++ l1) w)
  = withLogged (logged w ++ (l1 ++ l2)) w.
Proof. unfold withLogged. simpl. by rewrite app_assoc. Qed.

Lemma logsOnly_ret {A} (a : A) : logsOnly (ret a).
Proof. exists [], (Returns a). intros w. by rewrite withLogged_nil. Qed.

Lemma logsOnly_lift {A} (o : outcome A) : logsOnly (lift o).
Proof. exists [], o. intros w. rewrite withLogged_nil. by destruct o. Qed.

Lemma logsOnly_logAt l text fs : logsOnly (logAt l text fs).
Proof. by exists [{| level := l; message := text; fields := fs |}], (Returns tt). Qed.

Lemma logsOnly_bind {A B} (m : M A) (k : A -> M B) :
  logsOnly m -> (forall a, logsOnly (k a)) -> logsOnly (bind m k).
Proof.
  intros (l1 & r1 & H1) Hk. destruct r1 as [a|].
  - destruct (Hk a) as (l2 & r2 & H2). exists (l1 ++ l2), r2. intros w.
    unfold bind. rewrite H1, H2, withLogged_app. done.
  - exists l1, Panics. intros w. unfold bind. by rewrite H1.
Qed.

Lemma logsOnly_when b (m : M unit) : logsOnly m -> logsOnly (when b m).
Proof. destruct b; simpl; auto using logsOnly_ret. Qed.

Ltac logsOnly_with prim :=
  repeat first
    [ progress prim
    | apply logsOnly_ret | apply logsOnly_lift | apply logsOnly_logAt
    | apply logsOnly_when
    | apply logsOnly_bind; [|intros ?]
    | match goal with
      | |- logsOnly (match ?x with _ => _ end) => destruct x
      | |- logsOnly (let _ := _ in _) => cbv zeta
      end ].

Lemma logsOnly_sizeLoop id sizes sel : logsOnly (sizeLoop id sel sizes).
Proof.
  revert sel. induction sizes as [|s sizes IH]; intros sel; simpl.
  - apply logsOnly_ret.
  - apply logsOnly_bind; [|intros ?; apply IH].
    unfold sizeStep. logsOnly_with idtac.
Qed.

Lemma logsOnly_inputLocation E now msg : logsOnly (inputLocation E now msg).
Proof.
  unfold inputLocation, filenameFromDocument.
  logsOnly_with ltac:(apply logsOnly_sizeLoop).
Qed.

(** ** The event loop *)

(** What [handleEvent] makes of the result of [saveMedia]. *)
Lemma handleEvent_media E n found ev msg media w :
  ev_Action ev = ChannelAdminLogEventActionDeleteMessage (MessageOf msg) ->
  msg_Media msg = Some media ->
  handleEvent E n found ev w =
  match saveMedia E n msg
          (logging InfoLevel "Found deleted message with media"
             [FInt "msg_id" (msg_ID msg); FInt "date" (msg_Date msg)] w) with
  | Done (Some err) w1 =>
      Done true (logging WarnLevel "Failed to save media"
                   [FInt "msg_id" (msg_ID msg); FError err] w1)
  | Done None w1 =>
      Done true (logging InfoLevel "Successfully processed/saved media for message"
                   [FInt "msg_id" (msg_ID msg)] (withTotal (total w1 + 1) w1))
  | Crashed w1 => Crashed w1
  end.
Proof.
  intros Hev Hm. unfold handleEvent. rewrite Hev, Hm.
  unfold bind at 1. unfold logAt at 1. unfold bind at 1.
  destruct (saveMedia _ _ _ _) as [[err|] w1|w1]; reflexivity.
Qed.

(** A medium that is neither document nor photo is passed over: no
    error, no file, no transfer, two debug lines. *)
Lemma saveMedia_unsupported E n msg w :
  msg_Media msg = None \/ msg_Media msg = Some MessageMediaOther ->
  saveMedia E n msg w =
  Done None (logging DebugLevel "Skipping unsupported media type" [FInt "msg_id" (msg_ID msg)]
               (logging DebugLevel "Unsupported media type in message"
                  [FInt "msg_id" (msg_ID msg)] w)).
Proof. intros [H|H]; unfold saveMedia, inputLocation; by rewrite H. Qed.

(** *** C5 *)

(** C5. A failure met while one message is handled should cost a warning
    and nothing more.  When the file name of a deleted document makes
    [sanitize] panic, the process dies inside that event: the events after
    it in the page are never taken, nothing is saved for them. *)
Theorem panicking_name_aborts_scan E found i msg doc name rest w :
  msg_Media msg = Some (MessageMediaDocument (Some (DocumentOf doc))) ->
  firstFilename (doc_Attributes doc) = Some name ->
  maxLen < len (clean name) ->
  maxLen < len (Ext (clean name)) ->
  exists w',
    processEvents E found (deletion i msg :: rest) w = Crashed w' /\
    handled w' = S (handled w) /\ maxID w' = i /\
    files w' = files w /\ fetches w' = fetches w /\ total w' = total w.
Proof.
  intros Hm Hattr Hl He.
  assert (sanitize (clock E (handled w)) name = Panics) as Hp
    by by apply sanitize_panics_iff.
  cbn [processEvents]. unfold bind at 1. unfold processEvent.
  unfold bind at 1. unfold nextEvent. unfold bind at 1. unfold setMaxID.
  rewrite (handleEvent_media E (handled w) found (deletion i msg) msg _ _ eq_refl Hm).
  unfold saveMedia, inputLocation. rewrite Hm. unfold filenameFromDocument. rewrite Hattr.
  unfold bind, logAt, lift. rewrite Hp.
  eexists. split_and!; reflexivity.
Qed.

Lemma panicking_name_aborts_scan_witness :
  exists w',
    processEvents demoEnv false
      [deletion 9 (documentMessage 1 longExtension (str "x/y"));
       deletion 8 (documentMessage 2 (str "b.txt") (str "x/y"))] emptyWorld = Crashed w' /\
    handled w' = 1%nat /\ maxID w' = 9 /\
    files w' = ∅ /\ fetches w' = [] /\ total w' = 0.
Proof.
  apply (panicking_name_aborts_scan demoEnv false 9
           (documentMessage 1 longExtension (str "x/y"))
           (demoDocument longExtension (str "x/y")) longExtension);
    [reflexivity|reflexivity|by vm_compute|by vm_compute].
Defined.

(** ** [saveMedia] step by step *)

Lemma fetchTo_unfold E n loc msg f base dest w :
  fetchTo E n loc msg f base dest w =
  let w1 := withFetches (fetches w ++ [(loc, dest)])
              (logging InfoLevel "Attempting to download media"
                 [FString "filename" base; FInt "msg_id" (msg_ID msg);
                  FString "destination" dest] w) in
  match download E n loc dest with
  | TransferFailed partial =>
      Done (Some (ErrDownload base (msg_ID msg)))
        (withFiles (Remove (match partial with
                            | Some content => <[dest := File content]> f
                            | None => f
                            end) dest) w1)
  | Transferred content =>
      Done None (logging InfoLevel "Download successful" [FString "path" dest]
                   (withFiles (<[dest := File content]> f) w1))
  end.
Proof. unfold fetchTo, bind, logAt, recordFetch. by destruct (download E n loc dest). Qed.

Lemma store_unfold E n loc msg filename w :
  filename <> [] ->
  store E n loc msg filename w =
  match MkdirAll (files w) mediaDir with
  | None => Done (Some (ErrMkdirBase mediaDir)) w
  | Some f1 =>
      match MkdirAll f1 (subDirOf msg) with
      | None => Done (Some (ErrMkdirSub (subDirOf msg))) (prepared msg f1 w)
      | Some f2 =>
          let dest := destPathOf E msg filename in
          let base := baseFilenameOf E msg filename in
          match Stat f2 dest with
          | StatOk _ =>
              Done None (logging InfoLevel "File already exists, skipping download."
                           [FString "path" dest; FInt "msg_id" (msg_ID msg)]
                           (prepared msg f2 w))
          | StatNotExist => fetchTo E n loc msg f2 base dest (prepared msg f2 w)
          | StatOtherError =>
              fetchTo E n loc msg f2 base dest
                (logging WarnLevel "Error checking if file exists" [FString "path" dest]
                   (prepared msg f2 w))
          end
      end
  end.
Proof.
  intros Hne. unfold store, prepared, bind, getFiles, setFiles, when, logAt, ret.
  rewrite bool_decide_eq_false_2 by done.
  destruct (MkdirAll (files w) mediaDir) as [f1|]; [|done].
  destruct w as [fs lg ft mi tt hd]. unfold withFiles, logging, withLogged. simpl.
  destruct (bool_decide (subDirNameOf msg = None)); simpl;
    (destruct (MkdirAll f1 (subDirOf msg)) as [f2|]; [|done]);
    by destruct (Stat f2 (destPathOf E msg filename)).
Qed.

Lemma saveMedia_unfold E n msg w :
  saveMedia E n msg w =
  match inputLocation E (clock E n) msg w with
  | Done (LocatedAt loc filename) w1 => store E n loc msg filename w1
  | Done (NotLocated err) w1 =>
      if bool_decide (err = errUnsupportedMedia)
      then Done None (logging DebugLevel "Skipping unsupported media type"
                        [FInt "msg_id" (msg_ID msg)] w1)
      else Done (Some err) (logging WarnLevel "Could not get input location"
                              [FInt "msg_id" (msg_ID msg); FError err] w1)
  | Crashed w1 => Crashed w1
  end.
Proof.
  unfold saveMedia, bind.
  destruct (inputLocation E (clock E n) msg w) as [[loc filename|err] w1|w1]; [done| |done].
  by destruct (bool_decide (err = errUnsupportedMedia)).
Qed.

(** The names the locator gives are never empty. *)
Lemma filenameFromDocument_nonempty E now doc w name w' :
  filenameFromDocument E now doc w = Done name w' -> name <> [].
Proof.
  unfold filenameFromDocument, bind, logAt, lift.
  destruct (firstFilename (doc_Attributes doc)) as [raw|].
  - destruct (sanitize now raw) as [r|] eqn:Hs; [|done].
    intros [= <- _]. by apply sanitize_returns_safe in Hs as [? _].
  - destruct (sanitize now _) as [r|] eqn:Hs; [|done].
    intros [= <- _]. by apply sanitize_returns_safe in Hs as [? _].
Qed.

Lemma inputLocation_filename E now msg w loc filename w' :
  inputLocation E now msg w = Done (LocatedAt loc filename) w' -> filename <> [].
Proof.
  unfold inputLocation.
  destruct (msg_Media msg) as [[[[id|doc]|]|[[id|photo]|]|]|]; try done.
  - unfold bind at 1.
    destruct (filenameFromDocument E now doc w) as [name w1|w1] eqn:Hn; [|done].
    apply filenameFromDocument_nonempty in Hn.
    unfold bind, when, logAt, ret. case_bool_decide; by intros [= _ <- _].
  - unfold bind at 1.
    destruct (sizeLoop (msg_ID msg) noSelection (photo_Sizes photo) w) as [sel w1|w1]; [|done].
    destruct (biggest sel) as [[[[t wd] h] sz]|]; [|done].
    case_bool_decide; [done|].
    unfold bind, when, logAt, ret. case_bool_decide; intros [= _ <- _];
      pose proof (itoa_length (photo_ID photo)); by destruct (itoa (photo_ID photo)).
Qed.

Lemma processEvent_unfold E found ev w :
  processEvent E found ev w =
  handleEvent E (handled w) found ev (withMaxID (ev_ID ev) (withHandled (S (handled w)) w)).
Proof. reflexivity. Qed.

Lemma processEvents_cons E found ev rest w :
  processEvents E found (ev :: rest) w =
  match processEvent E found ev w with
  | Done found' w' => processEvents E found' rest w'
  | Crashed w' => Crashed w'
  end.
Proof. reflexivity. Qed.

(** *** C9 *)

Lemma app_singleton_neq {A} (l : list A) (x : A) : l <> l ++ [x].
Proof. intros H. apply (f_equal length) in H. rewrite length_app in H. simpl in H. lia. Qed.

Lemma Remove_no_file f path c : Remove f path !! path <> Some (File c).
Proof.
  unfold Remove. destruct (f !! path) as [[|c']|] eqn:Hf.
  - by rewrite Hf.
  - by rewrite lookup_delete_eq.
  - by rewrite Hf.
Qed.

(** C9. When the transfer asked for a message fails, the destination is
    left without the partial file, the event ends with the warning
    "Failed to save media" carrying the download error, and the loop goes
    on with the next event. *)
Theorem failed_fetch_is_contained E found ev rest w loc dest partial :
  fetches (world_of (processEvent E found ev w)) = fetches w ++ [(loc, dest)] ->
  download E (handled w) loc dest = TransferFailed partial ->
  exists w' msg base,
    ev_Action ev = ChannelAdminLogEventActionDeleteMessage (MessageOf msg) /\
    processEvent E found ev w = Done true w' /\
    (forall c, files w' !! dest <> Some (File c)) /\
    last (logged w') =
      Some {| level := WarnLevel; message := "Failed to save media";
              fields := [FInt "msg_id" (msg_ID msg);
                         FError (ErrDownload base (msg_ID msg))] |} /\
    processEvents E found (ev :: rest) w = processEvents E true rest w'.
Proof.
  intros Hf Hd. rewrite processEvents_cons. revert Hf. rewrite processEvent_unfold.
  set (w0 := withMaxID (ev_ID ev) (withHandled (S (handled w)) w)).
  destruct (ev_Action ev) as [[id|msg|id]|] eqn:Hev;
    try (unfold handleEvent; rewrite Hev; simpl; intros Hf;
         by apply app_singleton_neq in Hf).
  destruct (msg_Media msg) as [media|] eqn:Hm.
  2:{ unfold handleEvent. rewrite Hev, Hm. simpl. intros Hf.
      by apply app_singleton_neq in Hf. }
  rewrite (handleEvent_media E (handled w) found ev msg media w0 Hev Hm).
  rewrite saveMedia_unfold.
  destruct (logsOnly_inputLocation E (clock E (handled w)) msg) as (l & r & Hloc).
  rewrite Hloc. destruct r as [[loc' filename|err]|].
  2:{ case_bool_decide; simpl; intros Hf; by apply app_singleton_neq in Hf. }
  2:{ simpl. intros Hf. by apply app_singleton_neq in Hf. }
  assert (filename <> []) as Hne by exact (inputLocation_filename _ _ _ _ _ _ _ (Hloc w)).
  rewrite (store_unfold _ _ _ _ _ _ Hne).
  cbn [files withLogged logging withFiles].
  destruct (MkdirAll _ mediaDir) as [f1|];
    [|simpl; intros Hf; by apply app_singleton_neq in Hf].
  destruct (MkdirAll f1 (subDirOf msg)) as [f2|].
  2:{ unfold prepared. case_bool_decide; simpl; intros Hf; by apply app_singleton_neq in Hf. }
  cbv zeta.
  assert (forall w1 : World,
    fetches w1 = fetches w ->
    fetches (world_of
      match fetchTo E (handled w) loc' msg f2 (baseFilenameOf E msg filename)
              (destPathOf E msg filename) w1 with
      | Done (Some err) w2 =>
          Done true (logging WarnLevel "Failed to save media"
                       [FInt "msg_id" (msg_ID msg); FError err] w2)
      | Done None w2 =>
          Done true (logging InfoLevel "Successfully processed/saved media for message"
                       [FInt "msg_id" (msg_ID msg)] (withTotal (total w2 + 1) w2))
      | Crashed w2 => Crashed w2
      end) = fetches w ++ [(loc, dest)] ->
    exists w' base,
      match fetchTo E (handled w) loc' msg f2 (baseFilenameOf E msg filename)
              (destPathOf E msg filename) w1 with
      | Done (Some err) w2 =>
          Done true (logging WarnLevel "Failed to save media"
                       [FInt "msg_id" (msg_ID msg); FError err] w2)
      | Done None w2 =>
          Done true (logging InfoLevel "Successfully processed/saved media for message"
                       [FInt "msg_id" (msg_ID msg)] (withTotal (total w2 + 1) w2))
      | Crashed w2 => Crashed w2
      end = Done true w' /\
      (forall c, files w' !! dest <> Some (File c)) /\
      last (logged w') =
        Some {| level := WarnLevel; message := "Failed to save media";
                fields := [FInt "msg_id" (msg_ID msg);
                           FError (ErrDownload base (msg_ID msg))] |}) as Hfetch.
  { intros w1 Hw1. rewrite fetchTo_unfold. cbv zeta.
    destruct (download E (handled w) loc' (destPathOf E msg filename)) as [c|p] eqn:Hdl;
      simpl; rewrite Hw1; intros Hf; apply app_inj_1 in Hf as [_ [= <- <-]]; try done;
      rewrite Hd in Hdl; try done.
    eexists _, (baseFilenameOf E msg filename). split; [done|]. split.
    - simpl. intros c. apply Remove_no_file.
    - simpl. by rewrite last_snoc. }
  destruct (Stat f2 (destPathOf E msg filename)) as [nd| |].
  - unfold prepared. case_bool_decide; simpl; intros Hf; by apply app_singleton_neq in Hf.
  - intros Hf. apply Hfetch in Hf as (w' & base & Hr & Hfile & Hlog).
    + rewrite Hr. by exists w', msg, base.
    + unfold prepared. by case_bool_decide.
  - intros Hf. apply Hfetch in Hf as (w' & base & Hr & Hfile & Hlog).
    + rewrite Hr. by exists w', msg, base.
    + unfold prepared. by case_bool_decide.
Qed.

Lemma failed_fetch_is_contained_witness :
  exists w' msg base,
    ev_Action (deletion 8 (documentMessage 2 (str "b.txt") (str "x/y"))) =
      ChannelAdminLogEventActionDeleteMessage (MessageOf msg) /\
    processEvent demoEnv false (deletion 8 (documentMessage 2 (str "b.txt") (str "x/y")))
      (withHandled 1 emptyWorld) = Done true w' /\
    (forall c, files w' !! str "media_backup/42/20231114_221320_b.txt" <> Some (File c)) /\
    last (logged w') =
      Some {| level := WarnLevel; message := "Failed to save media";
              fields := [FInt "msg_id" (msg_ID msg);
                         FError (ErrDownload base (msg_ID msg))] |} /\
    processEvents demoEnv false [deletion 8 (documentMessage 2 (str "b.txt") (str "x/y"))]
      (withHandled 1 emptyWorld) = processEvents demoEnv true [] w'.
Proof.
  apply (failed_fetch_is_contained demoEnv false
           (deletion 8 (documentMessage 2 (str "b.txt") (str "x/y"))) []
           (withHandled 1 emptyWorld)
           (InputDocumentFileLocation 555 1 (str "ref") [])
           (str "media_backup/42/20231114_221320_b.txt")
           (Some (str "da"))); by vm_compute.
Defined.

(** *** C8 *)

Lemma mkdirAll_sameRegularFiles fuel f path f' :
  mkdirAll fuel f path = Some f' -> sameRegularFiles f f'.
Proof.
  revert f path f'. induction fuel as [|fuel IH]; intros f path f'; simpl.
  - destruct (f !! path) as [[|c]|]; [|done|done]. by intros [= <-].
  - destruct (f !! path) as [[|c]|] eqn:Hp; [by intros [= <-]|done|].
    destruct (parent path) as [p|].
    + destruct (mkdirAll fuel f p) as [f''|] eqn:Hrec; [|done].
      intros [= <-] q c. destruct (decide (path = q)) as [<-|Hne].
      * rewrite lookup_insert_eq, Hp. split; done.
      * rewrite lookup_insert_ne by done. by apply (IH _ _ _ Hrec).
    + intros [= <-] q c. destruct (decide (path = q)) as [<-|Hne].
      * rewrite lookup_insert_eq, Hp. split; done.
      * by rewrite lookup_insert_ne.
Qed.

Lemma fileAbove_sameRegularFiles fuel f f' q :
  sameRegularFiles f f' -> fileAbove fuel f' q = fileAbove fuel f q.
Proof.
  intros Hs. revert q. induction fuel as [|fuel IH]; intros q; simpl; [done|].
  destruct (parent q) as [p|]; [|done].
  destruct (f' !! p) as [[|c']|] eqn:H'; destruct (f !! p) as [[|c]|] eqn:H; try done;
    try apply IH.
  - apply Hs in H. congruence.
  - apply Hs in H'. congruence.
  - apply Hs in H'. congruence.
  - apply Hs in H. congruence.
Qed.

Lemma Stat_sameRegularFiles f f' q c :
  sameRegularFiles f f' -> Stat f q = StatOk (File c) -> Stat f' q = StatOk (File c).
Proof.
  intros Hs. unfold Stat. rewrite (fileAbove_sameRegularFiles _ f f' q Hs).
  destruct (fileAbove (length q) f q); [done|].
  destruct (f !! q) as [[|c0]|] eqn:Hq; try done.
  intros [= <-]. apply Hs in Hq. by rewrite Hq.
Qed.

(** C8. When the destination computed for a message is already a regular
    file, [saveMedia] says so in the log and returns without error: the
    network is not asked for anything and the file is as it was. *)
Theorem existing_file_is_not_fetched E n msg w loc filename w1 c :
  inputLocation E (clock E n) msg w = Done (LocatedAt loc filename) w1 ->
  dirsReady msg (files w) = true ->
  Stat (files w) (destPathOf E msg filename) = StatOk (File c) ->
  exists w',
    saveMedia E n msg w = Done None w' /\
    fetches w' = fetches w /\
    Stat (files w') (destPathOf E msg filename) = StatOk (File c) /\
    sameRegularFiles (files w) (files w') /\
    last (logged w') =
      Some {| level := InfoLevel; message := "File already exists, skipping download.";
              fields := [FString "path" (destPathOf E msg filename);
                         FInt "msg_id" (msg_ID msg)] |}.
Proof.
  intros Hloc Hdirs Hst. unfold dirsReady in Hdirs.
  destruct (MkdirAll (files w) mediaDir) as [f1|] eqn:H1; [|done].
  destruct (MkdirAll f1 (subDirOf msg)) as [f2|] eqn:H2; [|done].
  clear Hdirs.
  pose proof (inputLocation_filename _ _ _ _ _ _ _ Hloc) as Hne.
  destruct (logsOnly_inputLocation E (clock E n) msg) as (l & r & Hl).
  rewrite Hl in Hloc. destruct r as [a|]; [|done]. injection Hloc as -> <-.
  rewrite saveMedia_unfold, Hl, (store_unfold _ _ _ _ _ _ Hne).
  cbn [files withLogged]. rewrite H1, H2. cbv zeta.
  pose proof (mkdirAll_sameRegularFiles _ _ _ _ H1) as S1.
  pose proof (mkdirAll_sameRegularFiles _ _ _ _ H2) as S2.
  assert (sameRegularFiles (files w) f2) as S12.
  { intros q c'. rewrite (S2 q c'). apply S1. }
  rewrite (Stat_sameRegularFiles _ _ _ _ S12 Hst).
  eexists. split; [done|]. unfold prepared.
  case_bool_decide; simpl; split_and!; try done; try (by rewrite last_snoc);
    by apply (Stat_sameRegularFiles _ _ _ _ S12).
Qed.

Lemma existing_file_is_not_fetched_witness :
  exists w',
    saveMedia demoEnv 2 (documentMessage 3 (str "a") (str "x/y")) savedOnce = Done None w' /\
    fetches w' = fetches savedOnce /\
    Stat (files w')
      (destPathOf demoEnv (documentMessage 3 (str "a") (str "x/y")) (str "a"))
    = StatOk (File (str "data")) /\
    sameRegularFiles (files savedOnce) (files w') /\
    last (logged w') =
      Some {| level := InfoLevel; message := "File already exists, skipping download.";
              fields := [FString "path"
                           (destPathOf demoEnv (documentMessage 3 (str "a") (str "x/y"))
                              (str "a"));
                         FInt "msg_id" (msg_ID (documentMessage 3 (str "a") (str "x/y")))] |}.
Proof.
  eapply (existing_file_is_not_fetched demoEnv 2 (documentMessage 3 (str "a") (str "x/y"))
            savedOnce (InputDocumentFileLocation 555 1 (str "ref") []) (str "a"));
    vm_compute; reflexivity.
Defined.

(** *** C10 *)

Global Instance noFallbackLogged_preorder : PreOrder noFallbackLogged.
Proof.
  split.
  - intros w. exists []. by rewrite app_nil_r.
  - intros w1 w2 w3 (l1 & H1 & F1) (l2 & H2 & F2). exists (l1 ++ l2). split.
    + by rewrite H2, H1, app_assoc.
    + by apply Forall_app.
Qed.

Lemma noFallbackLogged_logAt l text fs :
  text <> "Generated fallback filename"%string -> moves noFallbackLogged (logAt l text fs).
Proof. intros Ht w. eexists. split; [done|]. by repeat constructor. Qed.

Lemma noFallbackLogged_silent {A} (m : M A) :
  (forall w, logged (world_of (m w)) = logged w) -> moves noFallbackLogged m.
Proof. intros H w. exists []. by rewrite H, app_nil_r. Qed.

Ltac noFallback_prim :=
  first [ apply noFallbackLogged_logAt; discriminate
        | apply noFallbackLogged_silent; intros ?; reflexivity ].

Lemma noFallbackLogged_sizeLoop id sizes sel : moves noFallbackLogged (sizeLoop id sel sizes).
Proof.
  revert sel. induction sizes as [|s sizes IH]; intros sel; simpl.
  - apply moves_ret, _.
  - apply moves_bind; [apply _| |intros ?; apply IH].
    unfold sizeStep. moves_with noFallback_prim.
Qed.

Lemma noFallbackLogged_inputLocation E now msg :
  moves noFallbackLogged (inputLocation E now msg).
Proof.
  unfold inputLocation, filenameFromDocument.
  moves_with ltac:(first [apply noFallbackLogged_sizeLoop | noFallback_prim]).
Qed.

Lemma noFallbackLogged_store E n loc msg filename :
  filename <> [] -> moves noFallbackLogged (store E n loc msg filename).
Proof.
  intros Hne. unfold store, fetchTo. rewrite bool_decide_eq_false_2 by done.
  moves_with noFallback_prim.
Qed.

(** C10. Every file name that [inputLocation] returns with a location is
    non-empty, so [saveMedia] never takes the branch of lines 228-231:
    a call never logs "Generated fallback filename". *)
Theorem locator_names_are_never_empty E n msg w :
  (forall loc filename w',
      inputLocation E (clock E n) msg w = Done (LocatedAt loc filename) w' ->
      filename <> []) /\
  noFallbackLogged w (world_of (saveMedia E n msg w)).
Proof.
  split; [intros loc filename w'; apply inputLocation_filename|].
  rewrite saveMedia_unfold.
  pose proof (noFallbackLogged_inputLocation E (clock E n) msg w) as Hl.
  destruct (inputLocation E (clock E n) msg w) as [[loc filename|err] w1|w1] eqn:Hloc;
    simpl in Hl.
  - etrans; [exact Hl|]. apply noFallbackLogged_store.
    by eapply inputLocation_filename.
  - etrans; [exact Hl|].
    case_bool_decide; simpl; (eexists; split; [done|]); by repeat constructor.
  - exact Hl.
Qed.

Lemma locator_names_are_never_empty_witness :
  exists loc filename w',
    inputLocation demoEnv (clock demoEnv 0)
      (documentMessage 1 (str "a/b.txt") (str "x/y")) emptyWorld
    = Done (LocatedAt loc filename) w' /\
    filename <> [].
Proof.
  eexists _, _, _. split; [vm_compute; reflexivity|].
  eapply (proj1 (locator_names_are_never_empty demoEnv 0
                   (documentMessage 1 (str "a/b.txt") (str "x/y")) emptyWorld)).
  vm_compute. reflexivity.
Defined.

(** ** The choice of the photo size *)

(** [firstLargest] is the first of the entries of largest [dim]. *)
Lemma firstLargest_spec cands b :
  firstLargest cands = Some b <->
  exists l1 l2, cands = l1 ++ b :: l2 /\
                Forall (fun c => dimOf c < dimOf b) l1 /\
                Forall (fun c => dimOf c <= dimOf b) l2.
Proof.
  revert b. induction cands as [|c rest IH]; intros b; simpl.
  - split; [done|]. intros (l1 & l2 & H & _). by destruct l1.
  - destruct (firstLargest rest) as [b'|] eqn:Hr.
    + destruct (IH b') as [IH1 _]. destruct (IH1 eq_refl) as (l1 & l2 & -> & F1 & F2).
      destruct (dimOf c <? dimOf b') eqn:Hlt.
      * apply Z.ltb_lt in Hlt. split.
        -- intros [= <-]. exists (c :: l1), l2. split_and!; [done| |done].
           by constructor.
        -- intros (k1 & k2 & Heq & G1 & G2). destruct k1 as [|x k1]; simplify_eq/=.
           ++ apply Forall_app in G2 as [_ G2]. apply Forall_cons in G2 as [? _]. lia.
           ++ apply IH. exists k1, k2. split_and!; [done| |done].
              by apply Forall_cons in G1 as [_ ?].
      * apply Z.ltb_ge in Hlt. split.
        -- intros [= <-]. exists [], (l1 ++ b' :: l2). split_and!; [done|done|].
           apply Forall_app. split.
           ++ eapply Forall_impl; [exact F1|]. simpl. intros. lia.
           ++ constructor; [done|]. eapply Forall_impl; [exact F2|]. simpl. intros. lia.
        -- intros (k1 & k2 & Heq & G1 & G2). destruct k1 as [|x k1]; simplify_eq/=; [done|].
           apply Forall_cons in G1 as [Hx G1].
           assert (Some b' = Some b) as [= ->] by (apply IH; by exists k1, k2).
           lia.
    + split.
      * intros [= <-]. exists [], rest. split_and!; [done|done|].
        destruct rest as [|x rest]; [done|]. simpl in Hr.
        by repeat case_match.
      * intros (k1 & k2 & Heq & G1 & G2). destruct k1 as [|x k1]; simplify_eq/=; [done|].
        assert (None = Some b) as Hb; [|done].
        apply IH. exists k1, k2. split_and!; [done| |done].
        by apply Forall_cons in G1 as [_ ?].
Qed.

Lemma firstLargest_elem cands b : firstLargest cands = Some b -> b ∈ cands.
Proof.
  intros H. apply firstLargest_spec in H as (l1 & l2 & -> & _).
  apply elem_of_app. right. by left.
Qed.

(** The loop over the sizes never fails; its value is a left fold and the
    world only gets log lines. *)
Lemma sizeLoop_value id sizes sel w :
  exists l, sizeLoop id sel sizes w =
            Done (fold_left pickStep sizes sel) (withLogged (logged w ++ l) w).
Proof.
  revert sel w. induction sizes as [|s sizes IH]; intros sel w; simpl.
  - exists []. by rewrite withLogged_nil.
  - assert (exists l, sizeStep id sel s w =
                      Done (pickStep sel s) (withLogged (logged w ++ l) w)) as (l1 & H1).
    { destruct s; simpl; try (by exists []; rewrite withLogged_nil);
        by eexists [_]. }
    unfold bind. rewrite H1.
    destruct (IH (pickStep sel s) (withLogged (logged w ++ l1) w)) as (l2 & H2).
    exists (l1 ++ l2). by rewrite H2, withLogged_app.
Qed.

(** The left fold of the code finds the first largest of the sizes of
    positive [dim], unless what it started from was at least as large. *)
Lemma pick_firstLargest sizes sel :
  0 <= largestDim sel ->
  fold_left pickStep sizes sel =
  match firstLargest (filter (fun c => 0 < dimOf c) (omap resolvable sizes)) with
  | Some b => if largestDim sel <? dimOf b then selected b else sel
  | None => sel
  end.
Proof.
  revert sel. induction sizes as [|s sizes IH]; intros sel Hpos; simpl; [done|].
  unfold pickStep at 2. destruct (resolvable s) as [c|] eqn:Hres; simpl.
  2:{ by apply IH. }
  unfold consider. rewrite filter_cons. destruct (decide (0 < dimOf c)) as [Hc|Hc].
  - simpl.
    destruct (largestDim sel <? dimOf c) eqn:Hlt;
      [apply Z.ltb_lt in Hlt|apply Z.ltb_ge in Hlt];
      (rewrite IH by (simpl; lia));
      destruct (firstLargest _) as [b|]; simpl;
      repeat (match goal with
              | |- context [?a <? ?b] =>
                  let H := fresh in
                  destruct (a <? b) eqn:H; [apply Z.ltb_lt in H|apply Z.ltb_ge in H]
              end); try done; try lia.
  - assert ((largestDim sel <? dimOf c) = false) as -> by (apply Z.ltb_ge; lia).
    by apply IH.
Qed.

(** From nothing selected, the loop ends on the first largest of the
    sizes of positive [dim], or on nothing. *)
Lemma pick_from_nothing sizes :
  fold_left pickStep sizes noSelection =
  match firstLargest (filter (fun c => 0 < dimOf c) (omap resolvable sizes)) with
  | Some b => selected b
  | None => noSelection
  end.
Proof.
  rewrite pick_firstLargest by done.
  destruct (firstLargest _) as [b|] eqn:Hb; [|done].
  apply firstLargest_elem, list_elem_of_filter in Hb as [Hpos _].
  by assert ((largestDim noSelection <? dimOf b) = true) as -> by by apply Z.ltb_lt.
Qed.

(** *** C4 *)

(** C4 as stated fails on a photo whose only resolvable size has width
    and height 0: that size is the largest there is, and by the claim it
    is returned, yet the code finds "no suitable photo sizes". *)
Lemma zero_dim_size_is_not_selected :
  claimedPhotoLocation 1
    {| photo_ID := 77; photo_AccessHash := 2; photo_FileReference := str "ref";
       photo_Sizes := [PhotoSize (str "s") 0 0 0] |}
  = LocatedAt (InputPhotoFileLocation 77 2 (str "ref") (str "s")) (str "77_s.jpg") /\
  value (inputLocation demoEnv 1000 (photoMessage 1 [PhotoSize (str "s") 0 0 0]) emptyWorld)
  = Some (NotLocated (ErrNoPhotoSizes 1 77)) /\
  value (inputLocation demoEnv 1000 (photoMessage 1 [PhotoSize (str "s") 0 0 0]) emptyWorld)
  <> Some (claimedPhotoLocation 1
             {| photo_ID := 77; photo_AccessHash := 2; photo_FileReference := str "ref";
                photo_Sizes := [PhotoSize (str "s") 0 0 0] |}).
Proof. by vm_compute. Qed.

(** C4 (amended). For a non-empty photo the locator goes through all
    sizes, passes over cached and stripped ones, and takes, among the
    [Size] and [ProgressiveSize] entries whose [dim = max(width, height)]
    is positive, the first of those with the largest [dim].  It fails with
    "no suitable photo sizes" when there is no such entry or when the entry
    taken has an empty type letter; otherwise the location carries the
    type letter and the name is "<photoID>_<type>.jpg". *)
Theorem photo_size_selection E now msg photo w :
  msg_Media msg = Some (MessageMediaPhoto (Some (PhotoOf photo))) ->
  exists w',
    inputLocation E now msg w = Done (amendedPhotoLocation (msg_ID msg) photo) w' /\
    files w' = files w /\ fetches w' = fetches w.
Proof.
  intros Hm. unfold inputLocation. rewrite Hm. unfold bind at 1.
  destruct (sizeLoop_value (msg_ID msg) (photo_Sizes photo) noSelection w) as (l & ->).
  rewrite pick_from_nothing. unfold amendedPhotoLocation.
  destruct (firstLargest _) as [[[[t wd] h] sz]|].
  - cbn [selected biggest biggestType tagOf fst]. case_bool_decide.
    + eexists. by split_and!.
    + unfold bind, when, logAt, ret, photoLocated. cbn [tagOf fst].
      case_bool_decide; eexists; by split_and!.
  - eexists. by split_and!.
Qed.

Lemma photo_size_selection_witness :
  exists w',
    inputLocation demoEnv 1000
      (photoMessage 1 [PhotoStrippedSize (str "i"); PhotoSize (str "s") 100 80 1;
                       PhotoSize (str "m") 300 200 2; PhotoSizeProgressive (str "y") 200 300])
      emptyWorld
    = Done (LocatedAt (InputPhotoFileLocation 77 2 (str "ref") (str "m")) (str "77_m.jpg")) w' /\
    files w' = files emptyWorld /\ fetches w' = fetches emptyWorld.
Proof.
  apply (photo_size_selection demoEnv 1000
           (photoMessage 1 [PhotoStrippedSize (str "i"); PhotoSize (str "s") 100 80 1;
                            PhotoSize (str "m") 300 200 2;
                            PhotoSizeProgressive (str "y") 200 300])
           {| photo_ID := 77; photo_AccessHash := 2; photo_FileReference := str "ref";
              photo_Sizes := [PhotoStrippedSize (str "i"); PhotoSize (str "s") 100 80 1;
                              PhotoSize (str "m") 300 200 2;
                              PhotoSizeProgressive (str "y") 200 300] |}
           emptyWorld).
  reflexivity.
Defined.

(** ** The locator as a function *)

Lemma value_inputLocation E now msg w :
  value (inputLocation E now msg w) = located E now msg.
Proof.
  unfold located.
  destruct (msg_Media msg) as [[[[id|doc]|]|[[id|photo]|]|]|] eqn:Hm;
    try (unfold inputLocation; by rewrite Hm).
  - unfold inputLocation. rewrite Hm. unfold filenameFromDocument, rawDocumentName.
    destruct (firstFilename (doc_Attributes doc)) as [name|];
      unfold bind, logAt, lift, when, ret;
      (destruct (sanitize now _); [|done]); by case_bool_decide.
  - unfold inputLocation. rewrite Hm. unfold bind at 1.
    destruct (sizeLoop_value (msg_ID msg) (photo_Sizes photo) noSelection w) as (l & ->).
    rewrite pick_from_nothing. unfold amendedPhotoLocation.
    destruct (firstLargest _) as [[[[t wd] h] sz]|]; [|done].
    cbn [selected biggest biggestType tagOf fst]. case_bool_decide; [done|].
    unfold bind, when, logAt, ret, photoLocated. cbn [tagOf fst]. by case_bool_decide.
Qed.

Lemma sanitize_clock_free raw now1 now2 :
  degenerate raw = false -> sanitize now1 raw = sanitize now2 raw.
Proof.
  unfold degenerate, sanitize. case_bool_decide; [done|]. simpl.
  destruct (truncate (clean raw)) as [t|]; [|done]. simpl. by intros ->.
Qed.

Lemma mimeExt_unicodeLower E1 E2 mime :
  (forall s, unicodeLower E1 s = unicodeLower E2 s) -> mimeExt E1 mime = mimeExt E2 mime.
Proof. intros H. unfold mimeExt, ToLower. repeat case_match; try done; congruence. Qed.

Lemma destPathOf_inputs E1 E2 m1 m2 filename :
  zoneOffset E1 (msg_Date m1) = zoneOffset E2 (msg_Date m2) ->
  subDirNameOf m1 = subDirNameOf m2 ->
  msg_Date m1 = msg_Date m2 ->
  destPathOf E1 m1 filename = destPathOf E2 m2 filename.
Proof.
  intros Hz Hs Hd. unfold destPathOf, subDirOf, baseFilenameOf. by rewrite Hz, Hs, Hd.
Qed.

(** The path that [saveMedia] hands to the network is [derivedPath]. *)
Lemma saveMedia_fetches_derivedPath E n msg w loc dest :
  fetches (world_of (saveMedia E n msg w)) = fetches w ++ [(loc, dest)] ->
  derivedPath E n msg w = Some dest.
Proof.
  unfold derivedPath. rewrite saveMedia_unfold.
  destruct (logsOnly_inputLocation E (clock E n) msg) as (l & r & Hloc).
  rewrite Hloc. destruct r as [[loc' filename|err]|]; simpl.
  2:{ case_bool_decide; simpl; intros Hf; by apply app_singleton_neq in Hf. }
  2:{ intros Hf. by apply app_singleton_neq in Hf. }
  assert (filename <> []) as Hne by exact (inputLocation_filename _ _ _ _ _ _ _ (Hloc w)).
  rewrite (store_unfold _ _ _ _ _ _ Hne). cbn [files withLogged].
  unfold settledName. rewrite bool_decide_eq_false_2 by done.
  destruct (MkdirAll _ mediaDir) as [f1|];
    [|simpl; intros Hf; by apply app_singleton_neq in Hf].
  destruct (MkdirAll f1 (subDirOf msg)) as [f2|].
  2:{ unfold prepared. case_bool_decide; simpl; intros Hf; by apply app_singleton_neq in Hf. }
  cbv zeta.
  destruct (Stat f2 (destPathOf E msg filename)) as [nd| |]; rewrite ?fetchTo_unfold;
    cbv zeta; unfold prepared.
  - case_bool_decide; simpl; intros Hf; by apply app_singleton_neq in Hf.
  - destruct (download E n loc' (destPathOf E msg filename)); case_bool_decide; simpl;
      intros Hf; by apply app_inj_1 in Hf as [_ [= _ <-]].
  - destruct (download E n loc' (destPathOf E msg filename)); case_bool_decide; simpl;
      intros Hf; by apply app_inj_1 in Hf as [_ [= _ <-]].
Qed.

(** *** C2 *)

(** C2 as stated fails when sanitization degenerates the name: the
    placeholder carries the clock reading, so the same message in the
    same world gets another destination at another moment. *)
Lemma degenerate_name_changes_destination :
  derivedPath demoEnv 0 (documentMessage 1 (str "...") (str "x/y")) emptyWorld
  = Some (str "media_backup/42/20231114_221320_sanitized_file_1000") /\
  derivedPath demoEnv 1 (documentMessage 1 (str "...") (str "x/y")) emptyWorld
  = Some (str "media_backup/42/20231114_221320_sanitized_file_1001") /\
  derivedPath demoEnv 0 (documentMessage 1 (str "...") (str "x/y")) emptyWorld
  <> derivedPath demoEnv 1 (documentMessage 1 (str "...") (str "x/y")) emptyWorld.
Proof. by vm_compute. Qed.

(** C2 (amended). The destination is determined by the sender-or-peer
    identity, the message time (in the zone of the process) and the
    candidate file name: two derivations that agree on these give the
    same path, for whatever two messages, at whatever moments and in
    whatever states of the world.  The candidate file name of a document
    is itself determined by the raw name (the file-name attribute, or ID
    and extension), so two documents with the same raw name get the same
    path, provided the raw name is not one that [sanitize] replaces by
    its time-stamped placeholder.  (The fallback for an empty candidate
    name, which also carries the clock reading, is never reached.) *)
Theorem destination_is_determined E1 E2 n1 n2 m1 m2 w1 w2 :
  zoneOffset E1 (msg_Date m1) = zoneOffset E2 (msg_Date m2) ->
  subDirNameOf m1 = subDirNameOf m2 ->
  msg_Date m1 = msg_Date m2 ->
  (candidateFilename E1 (clock E1 n1) m1 w1 = candidateFilename E2 (clock E2 n2) m2 w2 \/
   exists raw, rawName E1 m1 = Some raw /\ rawName E2 m2 = Some raw /\
               degenerate raw = false) ->
  derivedPath E1 n1 m1 w1 = derivedPath E2 n2 m2 w2.
Proof.
  intros Hz Hs Hd Hcand.
  assert (candidateFilename E1 (clock E1 n1) m1 w1
          = candidateFilename E2 (clock E2 n2) m2 w2) as Hc.
  { destruct Hcand as [Hc|(raw & H1 & H2 & Hdeg)]; [done|].
    unfold candidateFilename. rewrite !value_inputLocation. unfold located.
    unfold rawName in H1, H2.
    destruct (msg_Media m1) as [[[[id1|doc1]|]|[[id1|photo1]|]|]|]; simplify_eq.
    destruct (msg_Media m2) as [[[[id2|doc2]|]|[[id2|photo2]|]|]|]; simplify_eq.
    rewrite H2, (sanitize_clock_free _ (clock E2 n2) (clock E1 n1) Hdeg).
    by destruct (sanitize (clock E1 n1) (rawDocumentName E1 doc1)). }
  clear Hcand. unfold derivedPath. unfold candidateFilename in Hc.
  destruct (inputLocation E1 (clock E1 n1) m1 w1) as [[loc1 f1|e1] w1'|w1'] eqn:H1;
    destruct (inputLocation E2 (clock E2 n2) m2 w2) as [[loc2 f2|e2] w2'|w2'] eqn:H2;
    simpl in *; simplify_eq; try done.
  apply inputLocation_filename in H1.
  unfold settledName. rewrite !bool_decide_eq_false_2 by done.
  f_equal. by apply destPathOf_inputs.
Qed.

Lemma destination_is_determined_witness :
  derivedPath demoEnv 0 (documentMessage 1 (str "a.txt") (str "x/y")) emptyWorld =
  derivedPath pagedEnv 5 (documentMessage 9 (str "a.txt") (str "image/png")) savedOnce.
Proof.
  apply (destination_is_determined demoEnv pagedEnv 0 5
           (documentMessage 1 (str "a.txt") (str "x/y"))
           (documentMessage 9 (str "a.txt") (str "image/png")) emptyWorld savedOnce);
    try reflexivity.
  right. exists (str "a.txt"). by vm_compute.
Defined.

(** ** The file name of a document *)

Lemma firstFilename_explicit attrs : firstFilename attrs = explicitFilename attrs.
Proof.
  unfold explicitFilename. induction attrs as [|[name|] attrs IH]; simpl; [done| |done].
  rewrite filter_cons. by case_bool_decide; destruct (decide (name <> [])).
Qed.

Lemma Split_nonempty s sep : Split s sep <> [].
Proof. destruct s as [|c s]; simpl; [done|]. by repeat case_match. Qed.

Lemma Split_Index s sep :
  Split s sep = match Index s sep with
                | None => [s]
                | Some i => take i s :: Split (drop (S i) s) sep
                end.
Proof.
  induction s as [|c s IH]; simpl; [done|].
  destruct (Ascii.eqb c sep); [done|].
  rewrite IH. by destruct (Index s sep).
Qed.

Lemma Index_None s sep : Index s sep = None <-> sep ∉ s.
Proof.
  induction s as [|c s IH]; simpl.
  - split; [intros _; apply not_elem_of_nil|done].
  - destruct (Ascii.eqb c sep) eqn:Hc.
    + apply Ascii.eqb_eq in Hc as ->. split; [done|]. intros H. destruct H. by left.
    + apply Ascii.eqb_neq in Hc. rewrite not_elem_of_cons.
      destruct (Index s sep) as [i|] eqn:Hi; simpl; split; try done.
      all: try (intros [_ H]; by apply IH in H).
      all: intros _; split; [done|]; by apply IH.
Qed.

Lemma mimeExt_amended E mime : mimeExt E mime = amendedExt E mime.
Proof.
  unfold mimeExt, amendedExt, subtype. rewrite Split_Index.
  destruct (Index mime "/") as [i|].
  2:{ rewrite (bool_decide_eq_false_2 ("/"%char ∈ [])) by apply not_elem_of_nil.
      by vm_compute. }
  rewrite Split_Index.
  destruct (Index (drop (S i) mime) "/") as [j|] eqn:Hj.
  - rewrite (bool_decide_eq_true_2 ("/"%char ∈ drop (S i) mime)).
    + pose proof (Split_nonempty (drop (S j) (drop (S i) mime)) "/"%char) as Hne.
      destruct (Split (drop (S j) (drop (S i) mime)) "/"%char) as [|p ps]; [done|].
      reflexivity.
    + destruct (decide ("/"%char ∈ drop (S i) mime)) as [|Hn]; [done|].
      apply Index_None in Hn. congruence.
  - apply Index_None in Hj.
    rewrite (bool_decide_eq_false_2 ("/"%char ∈ drop (S i) mime)) by done.
    case_bool_decide as He; [|done]. rewrite He. by vm_compute.
Qed.

(** *** C7 *)

(** C7 as stated fails on a document without file-name attribute whose
    MIME subtype ends in a dot: the synthesized name goes through
    [sanitize] as well, which trims the dot. *)
Lemma synthesized_name_is_sanitized :
  claimedFilename demoEnv 1000 (demoDocument [] (str "image/x.")) = Returns (str "555.x.") /\
  value (filenameFromDocument demoEnv 1000 (demoDocument [] (str "image/x.")) emptyWorld)
  = Some (str "555.x") /\
  Returns (str "555.x") <> claimedFilename demoEnv 1000 (demoDocument [] (str "image/x.")).
Proof. by vm_compute. Qed.

(** C7 (amended). The file name of a document is [sanitize] applied to
    (1) the first file-name attribute that is not empty, or, without one,
    (2) "<documentID>.<ext>", where [ext] is the subtype of a MIME type
    with exactly one ['/'], lower-cased, cut at the first [';'] and trimmed
    of white space, if that is 1 to 9 bytes long and has none of the
    bytes of [hostile] (slash, backslash, colon, star, question mark,
    double quote, angle brackets, bar, blank), and "bin" otherwise.  The
    call only writes to the log, and ends as [sanitize] ends. *)
Theorem document_filename_resolution E now doc w :
  exists l,
    filenameFromDocument E now doc w =
    match amendedFilename E now doc with
    | Returns name => Done name (withLogged (logged w ++ l) w)
    | Panics => Crashed (withLogged (logged w ++ l) w)
    end.
Proof.
  unfold filenameFromDocument, amendedFilename.
  rewrite <-firstFilename_explicit, <-mimeExt_amended.
  destruct (firstFilename (doc_Attributes doc)) as [name|];
    eexists [_]; unfold bind, logAt, lift; by destruct (sanitize now _).
Qed.

(** ** More on [sanitize] *)

Lemma TrimLeftByte_head c s : head (TrimLeftByte c s) <> Some c.
Proof.
  induction s as [|x s IH]; simpl; [done|].
  destruct (Ascii.eqb x c) eqn:Hx; [done|].
  simpl. intros [= ->]. by rewrite Ascii.eqb_refl in Hx.
Qed.

Lemma TrimRightByte_last c s : last (TrimRightByte c s) <> Some c.
Proof. unfold TrimRightByte. rewrite last_reverse. apply TrimLeftByte_head. Qed.

Lemma head_prefix {A} (p t : list A) : p `prefix_of` t -> p <> [] -> head p = head t.
Proof. intros [k ->] Hp. by destruct p. Qed.

Lemma Trim_head s c : head (Trim s c) <> Some c.
Proof.
  unfold Trim. destruct (TrimRightByte c (TrimLeftByte c s)) eqn:Ht; [done|].
  rewrite <-Ht, (head_prefix _ (TrimLeftByte c s)).
  - apply TrimLeftByte_head.
  - apply TrimRightByte_prefix.
  - by rewrite Ht.
Qed.

Lemma clean_head s : head (clean s) <> Some "."%char.
Proof. apply Trim_head. Qed.

Lemma clean_last s : last (clean s) <> Some "."%char.
Proof. apply TrimRightByte_last. Qed.

(** The extension of a cleaned name is shorter than the name: the name
    does not begin with a dot. *)
Lemma clean_Ext_length s : clean s = [] \/ len (Ext (clean s)) < len (clean s).
Proof.
  pose proof (clean_head s) as Hh.
  destruct (clean s) as [|d q]; [by left|right].
  change (d :: q) with ([d] ++ q). unfold len.
  assert ("."%char ∉ [d]) as Hno.
  { intros H. apply list_elem_of_singleton in H. by subst d. }
  pose proof (Ext_app_length [d] q Hno). simpl in *. lia.
Qed.

(** The branches of [sanitize] (lines 423-484). *)
Lemma sanitize_cases now x r :
  sanitize now x = Returns r ->
  r = str "empty_filename" \/
  r = str "sanitized_file_" ++ itoa now \/
  exists t, truncate (clean x) = Returns t /\ t <> [] /\ t <> str "." /\ t <> str ".." /\
            (r = t /\ isReserved t = false \/ r = "_"%char :: t /\ isReserved t = true).
Proof.
  unfold sanitize. case_bool_decide as Hx; [intros [= <-]; by left|].
  destruct (truncate (clean x)) as [t|]; [|done]. cbn [obind].
  destruct (bool_decide (t = [])) eqn:H1; [intros [= <-]; right; by left|].
  destruct (bool_decide (t = str ".")) eqn:H2; [intros [= <-]; right; by left|].
  destruct (bool_decide (t = str "..")) eqn:H3; [intros [= <-]; right; by left|].
  cbn [orb]. apply bool_decide_eq_false in H1, H2, H3.
  destruct (isReserved t) eqn:Hres; intros [= <-]; right; right; exists t; split_and!; auto.
Qed.

Lemma truncate_short s : len s <= maxLen -> truncate s = Returns s.
Proof.
  intros H. unfold truncate.
  by assert ((maxLen <? len s) = false) as -> by (apply Z.ltb_ge; lia).
Qed.

Lemma digitsOf_numeric fuel n : Forall (fun c => numeric c = true) (digitsOf fuel n).
Proof.
  revert n. induction fuel as [|fuel IH]; intros n; [constructor|rewrite digitsOf_S].
  apply Forall_app. split; [destruct (n <? 10); [constructor|apply IH]|].
  constructor; [|constructor].
  pose proof (Z.mod_pos_bound n 10 eq_refl) as Hm.
  assert (n mod 10 = 0 \/ n mod 10 = 1 \/ n mod 10 = 2 \/ n mod 10 = 3 \/ n mod 10 = 4 \/
          n mod 10 = 5 \/ n mod 10 = 6 \/ n mod 10 = 7 \/ n mod 10 = 8 \/ n mod 10 = 9)
    as Hd by lia.
  destruct_or! Hd; rewrite Hd; reflexivity.
Qed.

Lemma itoa_numeric n : Forall (fun c => numeric c = true) (itoa n).
Proof.
  unfold itoa. apply Forall_app. split; [|apply digitsOf_numeric].
  destruct (n <? 0); by repeat constructor.
Qed.

(** What holds of the sign and the digits holds of every byte of a
    number. *)
Lemma numeric_bytes (P : ascii -> bool) n :
  forallb (fun k => implb (numeric (ascii_of_nat k)) (P (ascii_of_nat k))) (seq 0 256) = true ->
  Forall (fun c => P c = true) (itoa n).
Proof.
  intros H. eapply Forall_impl; [apply itoa_numeric|].
  intros c Hc. pose proof (all_bytes (fun c => implb (numeric c) (P c)) H c) as Hi. simpl in Hi.
  by rewrite Hc in Hi.
Qed.

Lemma itoa_nonempty n : itoa n <> [].
Proof. pose proof (itoa_length n). destruct (itoa n); simpl in *; [lia|done]. Qed.

(** X1. Whatever [sanitize] returns can be used as the name of a file in
    a directory: it is not empty, neither [.] nor [..], has no path
    separator and no control character, is at most 221 bytes long and its
    base name is not a reserved device name. *)
Theorem sanitize_result_is_usable now x r :
  sanitize now x = Returns r ->
  r <> [] /\ r <> str "." /\ r <> str ".." /\ safeName r /\
  len r <= maxLen + 1 /\ isReserved r = false.
Proof.
  intros Hs.
  destruct (sanitize_returns_safe now x r Hs) as (Hne & Hsafe & Hlen & Hres & _).
  split_and!; try done.
  all: destruct (sanitize_cases now x r Hs)
         as [->|[->|(t & _ & ? & ? & ? & [[-> _]|[-> _]])]]; try done.
  all: intros H; apply (f_equal head) in H; try done.
Qed.

Lemma sanitize_result_is_usable_witness :
  str "_con.txt" <> [] /\ str "_con.txt" <> str "." /\ str "_con.txt" <> str ".." /\
  safeName (str "_con.txt") /\ len (str "_con.txt") <= maxLen + 1 /\
  isReserved (str "_con.txt") = false.
Proof. apply (sanitize_result_is_usable 0 (str "con.txt")). by vm_compute. Defined.

(** X2. [sanitize] panics exactly when the extension of the cleaned name
    is longer than 220 bytes.  A cleaned name does not begin with a dot,
    so such a name has at least 222 bytes: every name of up to 221 bytes
    is taken. *)
Theorem sanitize_panics_exactly_on_long_extensions now x :
  (sanitize now x = Panics <-> maxLen < len (Ext (clean x))) /\
  (len x <= maxLen + 1 -> exists r, sanitize now x = Returns r).
Proof.
  assert (sanitize now x = Panics <-> maxLen < len (Ext (clean x))) as Hiff.
  { rewrite sanitize_panics_iff. pose proof (Ext_length (clean x)).
    unfold len. split; [tauto|lia]. }
  split; [done|]. intros Hx.
  destruct (sanitize now x) as [r|]; [by exists r|].
  destruct Hiff as [Hext _]. specialize (Hext eq_refl).
  pose proof (clean_length x) as Hc.
  destruct (clean_Ext_length x) as [Hnil|Hlt].
  - rewrite Hnil in Hext. by vm_compute in Hext.
  - unfold len in *. lia.
Qed.

(** X3. The name made of a name of at most 220 bytes neither begins nor
    ends with a dot. *)
Theorem sanitize_short_name_has_no_dot_at_its_ends now x r :
  len x <= maxLen -> sanitize now x = Returns r ->
  head r <> Some "."%char /\ last r <> Some "."%char.
Proof.
  intros Hx Hs.
  destruct (sanitize_cases now x r Hs) as [->|[->|(t & Ht & Hne & _ & _ & Hr)]].
  - by vm_compute.
  - split; [done|]. rewrite last_app.
    destruct (last (itoa now)) as [d|] eqn:Hl.
    + intros [= ->]. apply last_Some_elem_of in Hl.
      pose proof (itoa_numeric now) as Hn. rewrite Forall_forall in Hn.
      by apply Hn in Hl.
    + apply last_None in Hl. by apply itoa_nonempty in Hl.
  - rewrite truncate_short in Ht.
    2:{ pose proof (clean_length x). unfold len in *. lia. }
    injection Ht as <-.
    destruct Hr as [[-> _]|[-> _]].
    + split; [apply clean_head|apply clean_last].
    + split; [done|]. rewrite last_cons.
      pose proof (clean_last x). by destruct (last (clean x)).
Qed.

Lemma sanitize_short_name_has_no_dot_at_its_ends_witness :
  head (str "bashrc") <> Some "."%char /\ last (str "bashrc") <> Some "."%char.
Proof.
  apply (sanitize_short_name_has_no_dot_at_its_ends 0 (str "..bashrc.")); by vm_compute.
Defined.

(** Beyond 220 bytes the cut can leave the extension alone: the base name
    is gone and the name begins with a dot. *)
Example sanitize_long_name_leading_dot now :
  sanitize now ("a"%char :: "."%char :: repeat "b"%char 219)
  = Returns ("."%char :: repeat "b"%char 219).
Proof. by vm_compute. Qed.

(** ** Names that begin with a number *)

Lemma space2_high a b : space2 a b = true -> (128 <= byteval a /\ 128 <= byteval b)%N.
Proof.
  unfold space2. rewrite ?andb_true_iff, ?orb_true_iff, ?N.eqb_eq.
  intros [-> [-> | ->]]; by vm_compute.
Qed.

Lemma space3_high a b c :
  space3 a b c = true -> (128 <= byteval a /\ 128 <= byteval b /\ 128 <= byteval c)%N.
Proof.
  unfold space3. cbv zeta.
  repeat first [rewrite orb_true_iff | rewrite andb_true_iff
               | rewrite N.eqb_eq | rewrite N.leb_le].
  generalize (byteval a) (byteval b) (byteval c). intros x y z H.
  destruct_or! H; destruct_and! H; subst; try by vm_compute.
  all: split_and!; try by vm_compute.
  all: lia.
Qed.

Lemma asciiSpace_not_solid c : asciiSpace c = true -> solid c = false.
Proof. intros H. unfold solid. rewrite H. by destruct (keptByte c). Qed.

Lemma high_not_solid c : (128 <= byteval c)%N -> solid c = false.
Proof.
  intros H. unfold solid. apply N.ltb_ge in H. rewrite H.
  by destruct (keptByte c), (asciiSpace c).
Qed.

(** What is cut as white space holds no solid byte. *)
Lemma spacePrefix_strips s t :
  spacePrefix s = Some t -> exists k, s = k ++ t /\ Forall (fun c => solid c = false) k.
Proof.
  unfold spacePrefix. intros H.
  repeat case_match; simplify_eq.
  - eexists [_]. split; [done|]. repeat constructor. by apply asciiSpace_not_solid.
  - eexists [_; _]. split; [done|].
    match goal with H : space2 _ _ = true |- _ => apply space2_high in H as [? ?] end.
    repeat constructor; by apply high_not_solid.
  - eexists [_; _; _]. split; [done|].
    match goal with H : space3 _ _ _ = true |- _ => apply space3_high in H as (? & ? & ?) end.
    repeat constructor; by apply high_not_solid.
Qed.

Lemma spaceSuffixRev_strips s t :
  spaceSuffixRev s = Some t -> exists k, s = k ++ t /\ Forall (fun c => solid c = false) k.
Proof.
  unfold spaceSuffixRev. intros H.
  repeat case_match; simplify_eq.
  - eexists [_]. split; [done|]. repeat constructor. by apply asciiSpace_not_solid.
  - eexists [_; _]. split; [done|].
    match goal with H : space2 _ _ = true |- _ => apply space2_high in H as [? ?] end.
    repeat constructor; by apply high_not_solid.
  - eexists [_; _; _]. split; [done|].
    match goal with H : space3 _ _ _ = true |- _ => apply space3_high in H as (? & ? & ?) end.
    repeat constructor; by apply high_not_solid.
Qed.

Lemma strip_stops_at_solid k t k0 c q :
  k ++ t = k0 ++ c :: q -> Forall (fun x => solid x = false) k -> solid c = true ->
  exists k', t = k' ++ c :: q.
Proof.
  revert k0. induction k as [|x k IH]; intros k0 Heq Hk Hc; simpl in *; [by exists k0|].
  apply Forall_cons in Hk as [Hx Hk].
  destruct k0 as [|y k0]; simplify_eq/=; [congruence|].
  by apply (IH k0).
Qed.

Lemma trimWith_stops_at_solid step fuel k0 c q :
  (forall s t, step s = Some t ->
     exists k, s = k ++ t /\ Forall (fun c => solid c = false) k) ->
  solid c = true ->
  exists k', trimWith step fuel (k0 ++ c :: q) = k' ++ c :: q.
Proof.
  intros Hstep Hc. revert k0. induction fuel as [|fuel IH]; intros k0; simpl; [by exists k0|].
  destruct (step (k0 ++ c :: q)) as [t|] eqn:Hs; [|by exists k0].
  apply Hstep in Hs as (k & Heq & Hk).
  destruct (strip_stops_at_solid k t k0 c q) as [k' ->]; [done..|]. apply IH.
Qed.

Lemma TrimLeftByte_stops c0 k0 c q :
  c <> c0 -> exists k', TrimLeftByte c0 (k0 ++ c :: q) = k' ++ c :: q.
Proof.
  intros Hc. induction k0 as [|x k0 IH]; simpl.
  - exists []. by rewrite (proj2 (Ascii.eqb_neq _ _) Hc).
  - destruct (Ascii.eqb x c0); [done|]. by exists (x :: k0).
Qed.

Lemma solid_not_dot c : solid c = true -> c <> "."%char.
Proof.
  unfold solid. intros H ->. rewrite Ascii.eqb_refl in H.
  by rewrite andb_false_r in H.
Qed.

Lemma length_app_same {A} (k l : list A) : (length (k ++ l) <= length l)%nat -> k = [].
Proof. rewrite length_app. destruct k; simpl; [done|lia]. Qed.

(** Each of the four trims of [sanitize] leaves a front of solid bytes
    where it is. *)
Lemma TrimLeftSpace_solid p rest :
  Forall (fun c => solid c = true) p -> exists rest', TrimLeftSpace (p ++ rest) = p ++ rest'.
Proof.
  intros Hp. destruct Hp as [|d p Hd _]; [by eexists|].
  exists rest. unfold TrimLeftSpace.
  destruct (trimWith_stops_at_solid spacePrefix (length ((d :: p) ++ rest)) [] d (p ++ rest)
              spacePrefix_strips Hd) as [k' Hk].
  pose proof (trimWith_suffix spacePrefix (length ((d :: p) ++ rest)) ((d :: p) ++ rest)
                spacePrefix_suffix) as Hsuf.
  simpl in Hk, Hsuf |- *. rewrite Hk in Hsuf |- *.
  apply suffix_length in Hsuf.
  by rewrite (length_app_same k' (d :: p ++ rest)) by exact Hsuf.
Qed.

Lemma TrimRightSpace_solid p rest :
  Forall (fun c => solid c = true) p -> exists rest', TrimRightSpace (p ++ rest) = p ++ rest'.
Proof.
  intros Hp. destruct p as [|c p _] using rev_ind; [by eexists|].
  apply Forall_app in Hp as [_ Hc]. apply Forall_cons in Hc as [Hc _].
  unfold TrimRightSpace. rewrite <-(assoc_L (++)). simpl.
  rewrite reverse_app, reverse_cons, <-(assoc_L (++)). simpl.
  destruct (trimWith_stops_at_solid spaceSuffixRev (length (p ++ c :: rest))
              (reverse rest) c (reverse p) spaceSuffixRev_strips Hc) as [k' ->].
  exists (reverse k').
  by rewrite reverse_app, reverse_cons, reverse_involutive, <-(assoc_L (++)).
Qed.

Lemma TrimLeftByte_solid p rest :
  Forall (fun c => solid c = true) p ->
  exists rest', TrimLeftByte "."%char (p ++ rest) = p ++ rest'.
Proof.
  intros Hp. destruct Hp as [|d p Hd _]; [by eexists|].
  exists rest. simpl. by rewrite (proj2 (Ascii.eqb_neq _ _) (solid_not_dot d Hd)).
Qed.

Lemma TrimRightByte_solid p rest :
  Forall (fun c => solid c = true) p ->
  exists rest', TrimRightByte "."%char (p ++ rest) = p ++ rest'.
Proof.
  intros Hp. destruct p as [|c p _] using rev_ind; [by eexists|].
  apply Forall_app in Hp as [_ Hc]. apply Forall_cons in Hc as [Hc _].
  unfold TrimRightByte. rewrite <-(assoc_L (++)). simpl.
  rewrite reverse_app, reverse_cons, <-(assoc_L (++)). simpl.
  destruct (TrimLeftByte_stops "."%char (reverse rest) c (reverse p) (solid_not_dot c Hc))
    as [k' ->].
  exists (reverse k').
  by rewrite reverse_app, reverse_cons, reverse_involutive, <-(assoc_L (++)).
Qed.

Lemma solid_kept p : Forall (fun c => solid c = true) p -> Forall (fun c => keptByte c = true) p.
Proof.
  intros Hp. eapply Forall_impl; [exact Hp|].
  intros c H. unfold solid in H. by destruct (keptByte c).
Qed.

(** [sanitize]'s cleaning leaves a front of solid bytes as it is. *)
Lemma clean_solid_prefix p rest :
  Forall (fun c => solid c = true) p -> p `prefix_of` clean (p ++ rest).
Proof.
  intros Hp. unfold clean, replacerReplace, ReplaceAll, TrimSpace, Trim.
  rewrite !fmap_app, bind_app.
  pose proof (replacements_kept p (solid_kept p Hp)) as Hk.
  unfold replacerReplace, ReplaceAll in Hk. rewrite Hk.
  destruct (TrimLeftSpace_solid p
              (((fun c => if Ascii.eqb c "\"%char then "_"%char else c) <$>
                ((fun c => if Ascii.eqb c "/"%char then "_"%char else c) <$> rest))
               ≫= replacement) Hp) as [r1 ->].
  destruct (TrimRightSpace_solid p r1 Hp) as [r2 ->].
  destruct (TrimLeftByte_solid p r2 Hp) as [r3 ->].
  destruct (TrimRightByte_solid p r3 Hp) as [r4 ->].
  by apply prefix_app_r.
Qed.

Lemma itoa_solid n : Forall (fun c => solid c = true) (itoa n).
Proof. apply numeric_bytes. by vm_compute. Qed.

Lemma reserved_heads :
  Forall (fun name => match head name with
                      | Some h => numeric h = false
                      | None => False
                      end) reservedNames.
Proof. vm_compute. by repeat constructor. Qed.

(** A name that begins with a sign or a digit is not reserved. *)
Lemma isReserved_numeric d t : numeric d = true -> isReserved (d :: t) = false.
Proof.
  intros Hd. unfold isReserved. apply bool_decide_eq_false. intros Hin.
  pose proof reserved_heads as Hh. rewrite Forall_forall in Hh. apply Hh in Hin.
  pose proof (baseName_prefix (ToUpper (d :: t))) as Hp.
  destruct (baseName (ToUpper (d :: t))) as [|h b]; [done|].
  apply head_prefix in Hp; [|done]. simpl in Hp, Hin. injection Hp as ->.
  assert (forall c, implb (numeric c) (numeric (upperByte c)) = true) as Hu
    by (apply all_bytes; by vm_compute).
  specialize (Hu d). by rewrite Hd, Hin in Hu.
Qed.

(** A number followed by up to 199 bytes: the number stays in front, the
    clock is not read and there is no panic. *)
Lemma sanitize_number_prefix n rest :
  len rest <= 199 ->
  exists rest', len rest' <= len rest /\ safeName rest' /\
    forall now, sanitize now (itoa n ++ rest) = Returns (itoa n ++ rest').
Proof.
  intros Hrest.
  destruct (clean_solid_prefix (itoa n) rest (itoa_solid n)) as [rest' Hc].
  pose proof (clean_length (itoa n ++ rest)) as Hl.
  pose proof (clean_safe (itoa n ++ rest)) as Hs.
  rewrite Hc in Hl, Hs. rewrite !length_app in Hl. apply Forall_app in Hs as [_ Hs].
  pose proof (itoa_length n) as Hn. pose proof (itoa_numeric n) as Hnum.
  exists rest'. split; [unfold len; lia|]. split; [done|]. intros now.
  destruct (itoa n) as [|d p] eqn:Hi; [simpl in Hn; lia|].
  apply Forall_cons in Hnum as [Hd _].
  unfold sanitize. rewrite bool_decide_eq_false_2 by done.
  rewrite Hc, truncate_short.
  2:{ unfold len, maxLen in *. rewrite length_app. simpl in *. lia. }
  cbn [obind]. simpl ((d :: p) ++ rest').
  rewrite (bool_decide_eq_false_2 (_ = [])) by done.
  rewrite (bool_decide_eq_false_2 (_ = str ".")), (bool_decide_eq_false_2 (_ = str "..")).
  - cbn [orb]. by rewrite isReserved_numeric.
  - intros [= -> _]. done.
  - intros [= -> _]. done.
Qed.

Lemma mimeExt_acceptable E mime : acceptable (mimeExt E mime) = true.
Proof.
  unfold mimeExt. repeat case_match; try done.
Qed.

(** X4. A document without a file-name attribute is always given a name,
    and the name begins with the document's ID: [sanitize] leaves the ID
    in front, keeps at most ten bytes after it (the dot and what is left
    of the extension), never reads the clock and cannot panic. *)
Theorem mime_named_document_gets_its_id E doc :
  firstFilename (doc_Attributes doc) = None ->
  exists rest, len rest <= 10 /\ safeName rest /\
    forall now w,
      value (filenameFromDocument E now doc w) = Some (itoa (doc_ID doc) ++ rest).
Proof.
  intros Hattr.
  pose proof (mimeExt_acceptable E (doc_MimeType doc)) as Hacc.
  unfold acceptable in Hacc. apply andb_true_iff in Hacc as [Hacc _].
  apply andb_true_iff in Hacc as [_ Hlen]. apply Z.ltb_lt in Hlen.
  destruct (sanitize_number_prefix (doc_ID doc) ("."%char :: mimeExt E (doc_MimeType doc)))
    as (rest & Hrest & Hsafe & Hs).
  { unfold len in *. simpl. lia. }
  exists rest. split; [unfold len in *; simpl in *; lia|]. split; [done|].
  intros now w. unfold filenameFromDocument. rewrite Hattr.
  unfold bind, logAt, lift. by rewrite Hs.
Qed.

Lemma mime_named_document_gets_its_id_witness :
  exists rest, len rest <= 10 /\ safeName rest /\
    forall now w,
      value (filenameFromDocument demoEnv now
               {| doc_ID := 555; doc_AccessHash := 1; doc_FileReference := str "ref";
                  doc_MimeType := str "text/plain"; doc_Attributes := [] |} w)
      = Some (itoa 555 ++ rest).
Proof. by apply (mime_named_document_gets_its_id demoEnv). Defined.

(** ** Names that [sanitize] leaves alone *)

(** A cleaned name that is short enough and not reserved is returned as
    it is. *)
Lemma sanitize_clean_fixed now x :
  x <> [] -> clean x = x -> len x <= maxLen -> isReserved x = false ->
  sanitize now x = Returns x.
Proof.
  intros Hne Hclean Hlen Hres. pose proof (clean_head x) as Hh. rewrite Hclean in Hh.
  unfold sanitize. rewrite bool_decide_eq_false_2 by done.
  rewrite Hclean, truncate_short by done. cbn [obind].
  rewrite (bool_decide_eq_false_2 (x = [])) by done.
  rewrite (bool_decide_eq_false_2 (x = str ".")), (bool_decide_eq_false_2 (x = str "..")).
  - cbn [orb]. by rewrite Hres.
  - by intros ->.
  - by intros ->.
Qed.

(** X5. A name that needs no repair is returned as it is: not empty, no
    byte that the replacements touch, neither white space nor dots at its
    ends, at most 220 bytes, no reserved base name. *)
Theorem sanitize_keeps_safe_names now x :
  x <> [] -> Forall (fun c => keptByte c = true) x ->
  TrimSpace x = x -> Trim x "."%char = x ->
  len x <= maxLen -> isReserved x = false ->
  sanitize now x = Returns x.
Proof.
  intros Hne Hkept Hsp Hdot Hlen Hres. apply sanitize_clean_fixed; try done.
  unfold clean. by rewrite replacements_kept, Hsp.
Qed.

Lemma sanitize_keeps_safe_names_witness :
  sanitize 0 (str "report v2.pdf") = Returns (str "report v2.pdf").
Proof.
  apply sanitize_keeps_safe_names; [done|repeat constructor|..]; by vm_compute.
Defined.

(** Whatever [sanitize] returns is made of bytes that its replacements
    leave alone. *)
Lemma sanitize_kept now x r :
  sanitize now x = Returns r -> Forall (fun c => keptByte c = true) r.
Proof.
  intros Hs.
  destruct (sanitize_cases now x r Hs) as [->|[->|(t & Ht & _ & _ & _ & Hr)]].
  - by repeat constructor.
  - apply Forall_app. split; [by repeat constructor|apply solid_kept, itoa_solid].
  - assert (Forall (fun c => keptByte c = true) t) as Hk.
    { destruct (truncate_cases (clean x)) as [(Hp & _)|(t' & Ht' & Hpart & _)];
        [congruence|].
      assert (t' = t) as -> by congruence.
      apply Hpart, clean_part. unfold replacerReplace, ReplaceAll.
      apply Forall_bind, Forall_fmap, Forall_fmap, Forall_forall.
      intros c _. apply replacement_kept. }
    destruct Hr as [[-> _]|[-> _]]; [done|]. by constructor.
Qed.

(** X6. [sanitize] gives back every name it returned, provided the name
    has neither white space nor dots at its ends and is within the
    220 bytes: what stands in the way of idempotence is the white space
    that the trimming of dots can uncover, and the underscore put before
    a reserved name of full length. *)
Theorem sanitize_is_idempotent_on_trimmed_results now x r :
  sanitize now x = Returns r ->
  TrimSpace r = r -> Trim r "."%char = r -> len r <= maxLen ->
  sanitize now r = Returns r.
Proof.
  intros Hs Hsp Hdot Hlen.
  pose proof (sanitize_kept now x r Hs) as Hk.
  apply sanitize_returns_safe in Hs as (Hne & _ & _ & Hres & _).
  apply sanitize_clean_fixed; try done.
  unfold clean. by rewrite replacements_kept, Hsp.
Qed.

Lemma sanitize_is_idempotent_on_trimmed_results_witness :
  sanitize 0 (str "_con.txt") = Returns (str "_con.txt").
Proof.
  apply (sanitize_is_idempotent_on_trimmed_results 0 (str " con.txt. ")); by vm_compute.
Defined.

(** ** What a call of [saveMedia] does to the tree and to the network *)

Lemma value_Done {A} (r : run A) a : value r = Some a -> r = Done a (world_of r).
Proof. destruct r; simpl; [by intros [= ->]|done]. Qed.

Lemma sameRegularFiles_refl f : sameRegularFiles f f.
Proof. by intros q c. Qed.

Lemma sameRegularFiles_trans f1 f2 f3 :
  sameRegularFiles f1 f2 -> sameRegularFiles f2 f3 -> sameRegularFiles f1 f3.
Proof. intros H12 H23 q c. rewrite (H23 q c). apply H12. Qed.

Lemma Remove_other f path q : q <> path -> Remove f path !! q = f !! q.
Proof.
  intros Hq. unfold Remove. destruct (f !! path) as [[|c]|]; [done| |done].
  by rewrite lookup_delete_ne.
Qed.

(** A call of [saveMedia] either asks nothing of the network and leaves
    the regular files as they are, or it has a location, both
    directories, no entry at the destination, and asks for one transfer
    whose outcome decides result and tree. *)
Lemma saveMedia_cases E n msg w :
  (fetches (world_of (saveMedia E n msg w)) = fetches w /\
   sameRegularFiles (files w) (files (world_of (saveMedia E n msg w)))) \/
  (exists loc filename f1 f2,
      located E (clock E n) msg = Some (LocatedAt loc filename) /\ filename <> [] /\
      MkdirAll (files w) mediaDir = Some f1 /\ MkdirAll f1 (subDirOf msg) = Some f2 /\
      (forall nd, Stat f2 (destPathOf E msg filename) <> StatOk nd) /\
      fetches (world_of (saveMedia E n msg w))
      = fetches w ++ [(loc, destPathOf E msg filename)] /\
      match download E n loc (destPathOf E msg filename) with
      | Transferred c =>
          value (saveMedia E n msg w) = Some None /\
          files (world_of (saveMedia E n msg w)) = <[destPathOf E msg filename := File c]> f2
      | TransferFailed partial =>
          value (saveMedia E n msg w)
          = Some (Some (ErrDownload (baseFilenameOf E msg filename) (msg_ID msg))) /\
          files (world_of (saveMedia E n msg w))
          = Remove (match partial with
                    | Some c => <[destPathOf E msg filename := File c]> f2
                    | None => f2
                    end) (destPathOf E msg filename)
      end).
Proof.
  rewrite saveMedia_unfold.
  destruct (logsOnly_inputLocation E (clock E n) msg) as (l & r & Hloc).
  pose proof (value_inputLocation E (clock E n) msg w) as Hv.
  rewrite Hloc in Hv |- *. destruct r as [[loc filename|err]|]; simpl in Hv.
  2:{ left. case_bool_decide; simpl; split; done. }
  2:{ left. simpl. split; done. }
  assert (filename <> []) as Hne by exact (inputLocation_filename _ _ _ _ _ _ _ (Hloc w)).
  rewrite (store_unfold _ _ _ _ _ _ Hne). cbn [files withLogged].
  destruct (MkdirAll (files w) mediaDir) as [f1|] eqn:H1; [|left; simpl; split; done].
  pose proof (mkdirAll_sameRegularFiles _ _ _ _ H1) as S1.
  destruct (MkdirAll f1 (subDirOf msg)) as [f2|] eqn:H2.
  2:{ left. unfold prepared. case_bool_decide; simpl; split; done. }
  pose proof (mkdirAll_sameRegularFiles _ _ _ _ H2) as S2.
  pose proof (sameRegularFiles_trans _ _ _ S1 S2) as S12.
  cbv zeta. destruct (Stat f2 (destPathOf E msg filename)) as [nd| |] eqn:Hst.
  - left. unfold prepared. case_bool_decide; simpl; split; done.
  - right. exists loc, filename, f1, f2. rewrite fetchTo_unfold. cbv zeta.
    split_and!; [done|done|done|done|by rewrite Hst| |].
    + unfold prepared. by destruct (download _ _ _ _); case_bool_decide.
    + unfold prepared. by destruct (download _ _ _ _) as [?|[?|]]; case_bool_decide.
  - right. exists loc, filename, f1, f2. rewrite fetchTo_unfold. cbv zeta.
    split_and!; [done|done|done|done|by rewrite Hst| |].
    + unfold prepared. by destruct (download _ _ _ _); case_bool_decide.
    + unfold prepared. by destruct (download _ _ _ _) as [?|[?|]]; case_bool_decide.
Qed.

Lemma derivedPath_located E n msg w loc filename :
  located E (clock E n) msg = Some (LocatedAt loc filename) -> filename <> [] ->
  derivedPath E n msg w = Some (destPathOf E msg filename).
Proof.
  intros Hl Hne. unfold derivedPath, settledName.
  rewrite value_inputLocation, Hl. by rewrite bool_decide_eq_false_2.
Qed.

(** X7. A call of [saveMedia] leaves every regular file other than its
    destination as it is: none is created, changed or removed. *)
Theorem saveMedia_touches_only_its_destination E n msg w q c :
  derivedPath E n msg w <> Some q ->
  files (world_of (saveMedia E n msg w)) !! q = Some (File c) <->
  files w !! q = Some (File c).
Proof.
  intros Hq.
  destruct (saveMedia_cases E n msg w)
    as [[_ Hs]|(loc & filename & f1 & f2 & Hl & Hne & H1 & H2 & _ & _ & Hd)]; [apply Hs|].
  rewrite (derivedPath_located _ _ _ _ _ _ Hl Hne) in Hq.
  assert (q <> destPathOf E msg filename) as Hq' by congruence.
  pose proof (sameRegularFiles_trans _ _ _ (mkdirAll_sameRegularFiles _ _ _ _ H1)
                (mkdirAll_sameRegularFiles _ _ _ _ H2)) as S12.
  destruct (download E n loc (destPathOf E msg filename)) as [c'|[c'|]];
    destruct Hd as [_ ->]; rewrite ?Remove_other, ?lookup_insert_ne by done; apply S12.
Qed.

Lemma saveMedia_touches_only_its_destination_witness :
  files (world_of (saveMedia demoEnv 2 (documentMessage 3 (str "b") (str "x/y")) savedOnce))
    !! str "media_backup/42/20231114_221320_a" = Some (File (str "data")) <->
  files savedOnce !! str "media_backup/42/20231114_221320_a" = Some (File (str "data")).
Proof.
  apply (saveMedia_touches_only_its_destination demoEnv 2
           (documentMessage 3 (str "b") (str "x/y")) savedOnce).
  by vm_compute.
Defined.

(** X8. A call of [saveMedia] asks the network for at most one transfer,
    and then for the location that [inputLocation] gave, to be written to
    the destination derived for the message. *)
Theorem saveMedia_asks_for_one_transfer_at_most E n msg w :
  fetches (world_of (saveMedia E n msg w)) = fetches w \/
  exists loc filename,
    located E (clock E n) msg = Some (LocatedAt loc filename) /\
    derivedPath E n msg w = Some (destPathOf E msg filename) /\
    fetches (world_of (saveMedia E n msg w)) = fetches w ++ [(loc, destPathOf E msg filename)].
Proof.
  destruct (saveMedia_cases E n msg w)
    as [[Hf _]|(loc & filename & f1 & f2 & Hl & Hne & _ & _ & _ & Hf & _)]; [by left|].
  right. exists loc, filename. split; [done|]. split; [|done].
  by apply (derivedPath_located _ _ _ _ loc).
Qed.

(** X9. When the transfer that a call asked for is completed, the call
    returns without error and the destination holds what was
    transferred. *)
Theorem completed_transfer_is_stored E n msg w loc dest c :
  fetches (world_of (saveMedia E n msg w)) = fetches w ++ [(loc, dest)] ->
  download E n loc dest = Transferred c ->
  exists w',
    saveMedia E n msg w = Done None w' /\
    files w' !! dest = Some (File c) /\
    forall q c', q <> dest -> files w' !! q = Some (File c') <-> files w !! q = Some (File c').
Proof.
  intros Hf Hd.
  destruct (saveMedia_cases E n msg w)
    as [[Hf' _]|(loc' & filename & f1 & f2 & Hl & Hne & H1 & H2 & _ & Hf' & Hr)].
  { rewrite Hf' in Hf. by apply app_singleton_neq in Hf. }
  rewrite Hf' in Hf. apply app_inj_1 in Hf as [_ [= -> Hdest]]; [|done]. rewrite Hdest in Hr.
  rewrite Hd in Hr. destruct Hr as [Hv Hfiles].
  exists (world_of (saveMedia E n msg w)). split; [by apply value_Done|].
  rewrite Hfiles. split; [by rewrite lookup_insert_eq|].
  intros q c' Hq. rewrite lookup_insert_ne by done.
  apply (sameRegularFiles_trans _ _ _ (mkdirAll_sameRegularFiles _ _ _ _ H1)
           (mkdirAll_sameRegularFiles _ _ _ _ H2)).
Qed.

Lemma completed_transfer_is_stored_witness :
  exists w',
    saveMedia demoEnv 0 (documentMessage 1 (str "a") (str "x/y")) emptyWorld = Done None w' /\
    files w' !! str "media_backup/42/20231114_221320_a" = Some (File (str "data")) /\
    forall q c', q <> str "media_backup/42/20231114_221320_a" ->
      files w' !! q = Some (File c') <-> files emptyWorld !! q = Some (File c').
Proof.
  apply (completed_transfer_is_stored demoEnv 0 (documentMessage 1 (str "a") (str "x/y"))
           emptyWorld (InputDocumentFileLocation 555 1 (str "ref") [])); by vm_compute.
Defined.

(** ** Saving the same message again *)

Lemma mkdirAll_dir fuel f path f' : mkdirAll fuel f path = Some f' -> f' !! path = Some Dir.
Proof.
  destruct fuel as [|fuel]; simpl.
  - destruct (f !! path) as [[|c]|] eqn:Hp; [|done|done]. by intros [= <-].
  - destruct (f !! path) as [[|c]|] eqn:Hp; [by intros [= <-]|done|].
    destruct (parent path) as [p|].
    + destruct (mkdirAll fuel f p) as [f''|]; [|done].
      intros [= <-]. by rewrite lookup_insert_eq.
    + intros [= <-]. by rewrite lookup_insert_eq.
Qed.

(** [os.MkdirAll] changes no entry that is there. *)
Lemma mkdirAll_keeps fuel f path f' q x :
  mkdirAll fuel f path = Some f' -> f !! q = Some x -> f' !! q = Some x.
Proof.
  revert f path f'. induction fuel as [|fuel IH]; intros f path f'; simpl.
  - destruct (f !! path) as [[|c]|]; [|done|done]. by intros [= <-].
  - destruct (f !! path) as [[|c]|] eqn:Hp; [by intros [= <-]|done|].
    destruct (parent path) as [p|].
    + destruct (mkdirAll fuel f p) as [f''|] eqn:Hrec; [|done].
      intros [= <-] Hq. rewrite lookup_insert_ne by congruence. by apply (IH _ _ _ Hrec).
    + intros [= <-] Hq. by rewrite lookup_insert_ne by congruence.
Qed.

Lemma MkdirAll_existing f path : f !! path = Some Dir -> MkdirAll f path = Some f.
Proof. intros H. unfold MkdirAll. destruct (length path); simpl; by rewrite H. Qed.

Lemma beforeLastSep_length r t : beforeLastSep r = Some t -> (length t < length r)%nat.
Proof.
  revert t. induction r as [|c r IH]; intros t; simpl; [done|].
  destruct (Ascii.eqb c "/"); [intros [= <-]; lia|].
  intros H. apply IH in H. lia.
Qed.

Lemma parent_length path p : parent path = Some p -> (length p < length path)%nat.
Proof.
  unfold parent. destruct (beforeLastSep (reverse path)) as [t|] eqn:Ht; [|done].
  case_bool_decide; [done|]. intros [= <-].
  apply beforeLastSep_length in Ht. by rewrite !length_reverse in *.
Qed.

(** An entry is not on the way to a path that is not longer. *)
Lemma fileAbove_insert fuel f p x q :
  (length q <= length p)%nat -> fileAbove fuel (<[p := x]> f) q = fileAbove fuel f q.
Proof.
  revert q. induction fuel as [|fuel IH]; intros q Hq; simpl; [done|].
  destruct (parent q) as [p'|] eqn:Hp; [|done].
  apply parent_length in Hp.
  rewrite lookup_insert_ne by (intros ->; lia).
  rewrite IH by lia. done.
Qed.

(** With the same case mapping, and unless [sanitize] uses its
    placeholder, what the locator returns depends neither on the clock
    nor on the rest of the environment. *)
Lemma located_env_free E E' now now' msg :
  (forall s, unicodeLower E' s = unicodeLower E s) ->
  (forall doc, msg_Media msg = Some (MessageMediaDocument (Some (DocumentOf doc))) ->
               degenerate (rawDocumentName E doc) = false) ->
  located E' now' msg = located E now msg.
Proof.
  intros Hu H. unfold located.
  destruct (msg_Media msg) as [[[[id|doc]|]|[[id|photo]|]|]|]; try done.
  assert (rawDocumentName E' doc = rawDocumentName E doc) as ->
    by (unfold rawDocumentName; by rewrite (mimeExt_unicodeLower E' E)).
  by rewrite (sanitize_clock_free _ now' now (H doc eq_refl)).
Qed.

(** A regular file on the way to a path stays on the way when the
    entries above the path are kept. *)
Lemma fileAbove_mono fuel f f' q :
  (forall p x, (length p < length q)%nat -> f !! p = Some x -> f' !! p = Some x) ->
  fileAbove fuel f q = true -> fileAbove fuel f' q = true.
Proof.
  revert q. induction fuel as [|fuel IH]; intros q Hkeep; simpl; [done|].
  destruct (parent q) as [p|] eqn:Hp; [|done].
  apply parent_length in Hp.
  assert (forall p' x, (length p' < length p)%nat -> f !! p' = Some x -> f' !! p' = Some x)
    as Hkeep' by (intros p' x Hl; apply Hkeep; lia).
  destruct (f !! p) as [[|c]|] eqn:Hf.
  - rewrite (Hkeep p Dir Hp Hf). by apply IH.
  - by rewrite (Hkeep p (File c) Hp Hf).
  - intros Ha. destruct (f' !! p) as [[|c]|]; [by apply IH|done|by apply IH].
Qed.

(** X10. Once a call of [saveMedia] has fetched the file of a message,
    a later call for that message finds it, asks nothing of the network
    and leaves the tree as it is: at whatever moment, in whatever state
    of log, transfers and counters, and in a later run of the program.
    The conditions: the tree still has what the first call left (it may
    have grown) and has no regular file on the way to the destination;
    the later run formats the message time with the same zone offset and
    maps case the same way; and the name is not the time-stamped
    placeholder of [sanitize]. *)
Theorem saved_file_is_not_fetched_again E E' n n' msg w w1 w2 loc dest :
  saveMedia E n msg w = Done None w1 ->
  fetches w1 = fetches w ++ [(loc, dest)] ->
  (forall doc, msg_Media msg = Some (MessageMediaDocument (Some (DocumentOf doc))) ->
               degenerate (rawDocumentName E doc) = false) ->
  zoneOffset E' (msg_Date msg) = zoneOffset E (msg_Date msg) ->
  (forall s, unicodeLower E' s = unicodeLower E s) ->
  files w1 ⊆ files w2 ->
  fileAbove (length dest) (files w2) dest = false ->
  exists w3,
    saveMedia E' n' msg w2 = Done None w3 /\
    fetches w3 = fetches w2 /\ files w3 = files w2.
Proof.
  intros Hs Hf Hdeg Hz Hu Hsub Hab.
  destruct (saveMedia_cases E n msg w)
    as [[Hf' _]|(loc' & filename & f1 & f2 & Hl & Hne & H1 & H2 & Hst & Hf' & Hr)];
    rewrite Hs in *; simpl in *.
  { rewrite Hf' in Hf. by apply app_singleton_neq in Hf. }
  rewrite Hf' in Hf. apply app_inj_1 in Hf as [_ [= -> Hdest]]; [|done].
  destruct (download E n loc (destPathOf E msg filename)) as [c|partial];
    destruct Hr as [Hv Hfiles]; [clear Hv|done].
  rewrite Hdest in *.
  assert (forall p x, p <> dest -> f2 !! p = Some x -> files w2 !! p = Some x) as Hkeep.
  { intros p x Hp Hx. apply (lookup_weaken (files w1)); [|done].
    rewrite Hfiles. by rewrite lookup_insert_ne. }
  assert (fileAbove (length dest) f2 dest = false) as Hab2.
  { destruct (fileAbove (length dest) f2 dest) eqn:Ha; [|done].
    rewrite (fileAbove_mono _ f2 (files w2) dest) in Hab; [done| |done].
    intros p x Hp. apply Hkeep. intros ->. lia. }
  assert (f2 !! dest = None) as Hnone.
  { unfold Stat in Hst. rewrite Hab2 in Hst.
    destruct (f2 !! dest) as [nd|]; [by destruct (Hst nd)|done]. }
  assert (f2 !! mediaDir = Some Dir) as Hbase2
    by (eapply mkdirAll_keeps; [exact H2|by eapply mkdirAll_dir]).
  assert (f2 !! subDirOf msg = Some Dir) as Hdir2 by by eapply mkdirAll_dir.
  assert (files w2 !! mediaDir = Some Dir) as Hbase
    by (apply Hkeep; [intros Heq; congruence|done]).
  assert (files w2 !! subDirOf msg = Some Dir) as Hdir
    by (apply Hkeep; [intros Heq; congruence|done]).
  assert (files w2 !! dest = Some (File c)) as Hfile.
  { apply (lookup_weaken (files w1)); [|done]. by rewrite Hfiles, lookup_insert_eq. }
  assert (destPathOf E' msg filename = dest) as Hdest'.
  { rewrite <-Hdest. by apply destPathOf_inputs. }
  rewrite saveMedia_unfold.
  destruct (logsOnly_inputLocation E' (clock E' n') msg) as (l & r & Hloc).
  pose proof (value_inputLocation E' (clock E' n') msg w2) as Hv.
  rewrite (located_env_free E E' (clock E n) (clock E' n') msg Hu Hdeg), Hl, Hloc in Hv.
  rewrite Hloc. destruct r as [a|]; [|done]. injection Hv as ->.
  rewrite (store_unfold _ _ _ _ _ _ Hne). cbn [files withLogged].
  rewrite (MkdirAll_existing _ mediaDir) by done.
  rewrite (MkdirAll_existing _ (subDirOf msg)) by done.
  cbv zeta. rewrite Hdest'. unfold Stat. rewrite Hab, Hfile.
  eexists. split; [done|]. unfold prepared.
  by case_bool_decide.
Qed.

Lemma saved_file_is_not_fetched_again_witness :
  exists w3,
    saveMedia pagedEnv 7 (documentMessage 1 (str "a") (str "x/y"))
      (withTotal 1 (withMaxID 9 (withHandled 7 savedOnce))) = Done None w3 /\
    fetches w3 = fetches (withTotal 1 (withMaxID 9 (withHandled 7 savedOnce))) /\
    files w3 = files (withTotal 1 (withMaxID 9 (withHandled 7 savedOnce))).
Proof.
  apply (saved_file_is_not_fetched_again demoEnv pagedEnv 0 7
           (documentMessage 1 (str "a") (str "x/y"))
           emptyWorld savedOnce (withTotal 1 (withMaxID 9 (withHandled 7 savedOnce)))
           (InputDocumentFileLocation 555 1 (str "ref") [])
           (str "media_backup/42/20231114_221320_a")).
  - apply value_Done. by vm_compute.
  - by vm_compute.
  - intros doc [= <-]. by vm_compute.
  - reflexivity.
  - reflexivity.
  - reflexivity.
  - by vm_compute.
Defined.

(** ** What the count of saved files counts *)

Global Instance sameTotal_preorder : PreOrder sameTotal.
Proof.
  split; [by intros w|]. intros w1 w2 w3 H1 H2. unfold sameTotal in *. congruence.
Qed.

Lemma sameTotal_logAt l text fs : moves sameTotal (logAt l text fs).
Proof. by intros w. Qed.

Lemma sameTotal_setFiles f : moves sameTotal (setFiles f).
Proof. by intros w. Qed.

Lemma sameTotal_recordFetch loc path : moves sameTotal (recordFetch loc path).
Proof. by intros w. Qed.

Ltac sameTotal_prim :=
  first [ apply sameTotal_logAt | apply sameTotal_setFiles | apply sameTotal_recordFetch ].

Lemma sameTotal_sizeLoop id sizes sel : moves sameTotal (sizeLoop id sel sizes).
Proof.
  revert sel. induction sizes as [|s sizes IH]; intros sel; simpl.
  - apply moves_ret, _.
  - apply moves_bind; [apply _| |intros ?; apply IH].
    unfold sizeStep. moves_with sameTotal_prim.
Qed.

(** [saveMedia] leaves the count to its caller. *)
Lemma sameTotal_saveMedia E n msg : moves sameTotal (saveMedia E n msg).
Proof.
  unfold saveMedia, store, fetchTo, inputLocation, filenameFromDocument.
  moves_with ltac:(first [apply sameTotal_sizeLoop | sameTotal_prim]).
Qed.

Lemma processEvent_total E found ev w :
  total w <= total (world_of (processEvent E found ev w))
          <= total w + (if mediaEvent ev then 1 else 0).
Proof.
  rewrite processEvent_unfold. unfold mediaEvent.
  set (w0 := withMaxID (ev_ID ev) (withHandled (S (handled w)) w)).
  destruct (ev_Action ev) as [[id|msg|id]|] eqn:Hev;
    try (unfold handleEvent; rewrite Hev; simpl; lia).
  destruct (msg_Media msg) as [media|] eqn:Hm.
  2:{ unfold handleEvent. rewrite Hev, Hm. simpl. lia. }
  rewrite (handleEvent_media E (handled w) found ev msg media w0 Hev Hm).
  pose proof (sameTotal_saveMedia E (handled w) msg
                (logging InfoLevel "Found deleted message with media"
                   [FInt "msg_id" (msg_ID msg); FInt "date" (msg_Date msg)] w0)) as Ht.
  unfold sameTotal in Ht.
  destruct (saveMedia _ _ _ _) as [[err|] w1|w1]; simpl in *; lia.
Qed.

(** X11. The count of saved files never goes down, and a page adds at
    most one for each of its deletions of a message with a medium,
    whether the page is gone through or the process dies in it. *)
Theorem total_counts_media_deletions_at_most E found events w :
  total w <= total (world_of (processEvents E found events w))
          <= total w + Z.of_nat (length (List.filter mediaEvent events)).
Proof.
  revert found w. induction events as [|ev events IH]; intros found w; [simpl; lia|].
  rewrite processEvents_cons. pose proof (processEvent_total E found ev w) as Hev.
  destruct (processEvent E found ev w) as [found' w1|w1]; simpl in Hev.
  - specialize (IH found' w1). simpl. destruct (mediaEvent ev); simpl length; lia.
  - simpl. destruct (mediaEvent ev); simpl length; lia.
Qed.

(** X12. A medium that is neither document nor photo is counted as
    saved: the event adds one to the count although nothing is fetched
    and the tree is as it was. *)
Theorem unsupported_media_is_counted E found ev msg w :
  ev_Action ev = ChannelAdminLogEventActionDeleteMessage (MessageOf msg) ->
  msg_Media msg = Some MessageMediaOther ->
  exists w',
    processEvent E found ev w = Done true w' /\
    total w' = total w + 1 /\ files w' = files w /\ fetches w' = fetches w.
Proof.
  intros Hev Hm. rewrite processEvent_unfold.
  rewrite (handleEvent_media E (handled w) found ev msg _ _ Hev Hm).
  rewrite saveMedia_unsupported by by right.
  eexists. split; [done|]. by simpl.
Qed.

Lemma unsupported_media_is_counted_witness :
  exists w',
    processEvent demoEnv false (deletion 9 (demoMessage 1 (Some MessageMediaOther))) emptyWorld
    = Done true w' /\
    total w' = total emptyWorld + 1 /\ files w' = files emptyWorld /\
    fetches w' = fetches emptyWorld.
Proof.
  by apply (unsupported_media_is_counted demoEnv false
              (deletion 9 (demoMessage 1 (Some MessageMediaOther)))
              (demoMessage 1 (Some MessageMediaOther))).
Defined.

Lemma processEvent_without_media E found ev w :
  mediaEvent ev = false ->
  exists w',
    processEvent E found ev w = Done found w' /\
    files w' = files w /\ fetches w' = fetches w /\ total w' = total w.
Proof.
  rewrite processEvent_unfold. unfold mediaEvent, handleEvent.
  destruct (ev_Action ev) as [[id|msg|id]|]; [| |..];
    try destruct (msg_Media msg); try done; intros _; by eexists.
Qed.

(** X13. A page without the deletion of a message that carries a medium
    is only read: every event is taken, no file is written, nothing is
    asked of the network, the count stays and so does the flag that says
    whether deleted media were found. *)
Theorem page_without_media_is_only_read E found events w :
  forallb (fun ev => negb (mediaEvent ev)) events = true ->
  exists w',
    processEvents E found events w = Done found w' /\
    handled w' = (handled w + length events)%nat /\
    files w' = files w /\ fetches w' = fetches w /\ total w' = total w.
Proof.
  revert w. induction events as [|ev events IH]; intros w Hall.
  - exists w. simpl. split_and!; try done; lia.
  - simpl in Hall. apply andb_true_iff in Hall as [Hev Hall]. apply negb_true_iff in Hev.
    rewrite processEvents_cons.
    destruct (processEvent_without_media E found ev w Hev) as (w1 & Hr & Hf & Hn & Ht).
    pose proof (processEvent_cursor E found ev w) as [_ Hh].
    rewrite Hr in Hh |- *. simpl in Hh.
    destruct (IH w1 Hall) as (w' & Hr' & Hh' & Hf' & Hn' & Ht').
    exists w'. split; [done|]. simpl. split_and!; [lia|congruence..].
Qed.

Lemma page_without_media_is_only_read_witness :
  exists w',
    processEvents demoEnv false
      [{| ev_ID := 5; ev_Action := ChannelAdminLogEventActionOther |};
       deletion 4 (demoMessage 1 None);
       {| ev_ID := 3;
          ev_Action := ChannelAdminLogEventActionDeleteMessage (MessageService 2) |}]
      emptyWorld = Done false w' /\
    handled w' = (handled emptyWorld + 3)%nat /\
    files w' = files emptyWorld /\ fetches w' = fetches emptyWorld /\
    total w' = total emptyWorld.
Proof. by apply (page_without_media_is_only_read demoEnv false). Defined.




(** ** Where a document is written *)

Lemma Split_app_sep e rest sep :
  sep ∉ e -> Split (e ++ sep :: rest) sep = e :: Split rest sep.
Proof.
  induction e as [|c e IH]; intros Hno; simpl.
  - by rewrite Ascii.eqb_refl.
  - apply not_elem_of_cons in Hno as [Hc Hno].
    rewrite (proj2 (Ascii.eqb_neq _ _)) by congruence. by rewrite IH.
Qed.

Lemma Split_no_sep e sep : sep ∉ e -> Split e sep = [e].
Proof.
  induction e as [|c e IH]; intros Hno; simpl; [done|].
  apply not_elem_of_cons in Hno as [Hc Hno].
  rewrite (proj2 (Ascii.eqb_neq _ _)) by congruence. by rewrite IH.
Qed.

Lemma Split_joinElems es :
  es <> [] -> Forall simpleElement es -> Split (joinElems es) "/"%char = es.
Proof.
  induction es as [|e es IH]; [done|]. intros _ Hs.
  apply Forall_cons in Hs as [(_ & He & _) Hs].
  destruct es as [|e' es]; [by apply Split_no_sep|].
  change (joinElems (e :: e' :: es)) with (e ++ "/"%char :: joinElems (e' :: es)).
  rewrite Split_app_sep by done. by rewrite IH.
Qed.

Lemma cleanElems_simple rooted stack es :
  Forall simpleElement es -> cleanElems rooted stack es = reverse stack ++ es.
Proof.
  revert stack. induction es as [|e es IH]; intros stack Hs; simpl.
  - by rewrite app_nil_r.
  - apply Forall_cons in Hs as [(H0 & _ & H1 & H2) Hs].
    rewrite !bool_decide_eq_false_2 by done. simpl.
    by rewrite IH, reverse_cons, <-(assoc_L (++)).
Qed.

Lemma joinElems_head e es c : head e = Some c -> head (joinElems (e :: es)) = Some c.
Proof. destruct e as [|c' e]; [done|]. intros [= ->]. by destruct es. Qed.

(** A relative path made of simple elements is clean. *)
Lemma Clean_joinElems es :
  es <> [] -> Forall simpleElement es -> Clean (joinElems es) = joinElems es.
Proof.
  intros Hne Hs. unfold Clean. rewrite Split_joinElems, cleanElems_simple by done.
  change (reverse [] ++ es) with es.
  destruct es as [|e es]; [done|]. pose proof Hs as Hs'.
  apply Forall_cons in Hs' as [(H0 & Hsep & _) _].
  destruct e as [|c e]; [done|].
  pose proof (joinElems_head (c :: e) es c eq_refl) as Hh.
  destruct (joinElems ((c :: e) :: es)) as [|c' j]; [done|].
  injection Hh as ->. cbv beta iota zeta.
  rewrite (proj2 (Ascii.eqb_neq c "/"%char)).
  2:{ intros ->. apply Hsep. by left. }
  cbn [app]. by rewrite bool_decide_eq_false_2.
Qed.

Lemma joinElems_snoc es b : es <> [] -> joinElems (es ++ [b]) = joinElems es ++ "/"%char :: b.
Proof.
  induction es as [|e es IH]; [done|]. intros _.
  destruct es as [|e' es]; [done|].
  change (joinElems ((e :: e' :: es) ++ [b]))
    with (e ++ "/"%char :: joinElems ((e' :: es) ++ [b])).
  rewrite IH by done. simpl. by rewrite <-(assoc_L (++)).
Qed.

(** [filepath.Join] of a clean relative path and a simple element puts
    the separator between them. *)
Lemma Join_simple es b :
  es <> [] -> Forall simpleElement es -> simpleElement b ->
  Join (joinElems es) b = joinElems (es ++ [b]).
Proof.
  intros Hne Hs Hb. unfold Join.
  assert (joinElems es <> []) as Hj.
  { destruct es as [|[|c e] es]; [done| |].
    - by apply Forall_cons in Hs as [[? _] _].
    - pose proof (joinElems_head (c :: e) es c eq_refl) as Hh.
      intros H. by rewrite H in Hh. }
  rewrite bool_decide_eq_false_2 by done.
  rewrite <-joinElems_snoc by done. apply Clean_joinElems.
  - by destruct es.
  - apply Forall_app. split; [done|]. by apply Forall_singleton.
Qed.

Lemma solid_safe c : solid c = true -> safeByte c = true.
Proof.
  revert c.
  assert (forall c, implb (solid c) (safeByte c) = true) as H
    by (apply all_bytes; by vm_compute).
  intros c Hc. specialize (H c). by rewrite Hc in H.
Qed.

(** A safe name that begins with a solid byte names one entry. *)
Lemma simpleElement_solid_head c e :
  solid c = true -> safeName e -> simpleElement (c :: e).
Proof.
  intros Hc He. pose proof (solid_not_dot c Hc) as Hd.
  split; [done|]. split; [|split; by intros [= -> _]].
  intros Hin. apply elem_of_cons in Hin as [<-|Hin]; [by vm_compute in Hc|].
  unfold safeName in He. rewrite Forall_forall in He. apply He in Hin. by vm_compute in Hin.
Qed.

Lemma itoa_simple n : simpleElement (itoa n).
Proof.
  pose proof (itoa_solid n) as Hs. pose proof (itoa_safe n) as Hf.
  pose proof (itoa_nonempty n) as Hn.
  destruct (itoa n) as [|c e]; [done|].
  apply Forall_cons in Hs as [Hc _]. apply Forall_cons in Hf as [_ Hf].
  by apply simpleElement_solid_head.
Qed.

(** The name of the sender's directory is one entry. *)
Lemma subDirName_simple msg : simpleElement (default (str "unknown_sender") (subDirNameOf msg)).
Proof.
  unfold subDirNameOf.
  destruct (msg_FromID msg) as [[from|from|from]|]; simpl; try apply itoa_simple;
    destruct (msg_PeerID msg) as [[peer|peer|peer]|]; simpl; try apply itoa_simple;
    (apply simpleElement_solid_head; [by vm_compute|]);
    repeat (constructor; [done|]); first [apply itoa_safe | constructor].
Qed.

Lemma pad_solid width x : Forall (fun c => solid c = true) (GoTime.pad width x).
Proof.
  unfold GoTime.pad. apply Forall_app. split; [destruct (x <? 0); by repeat constructor|].
  apply Forall_app. split; [|apply itoa_solid].
  apply Forall_forall. intros c Hc. apply list_elem_of_In, repeat_spec in Hc. by subst c.
Qed.

Lemma format_solid offset sec : Forall (fun c => solid c = true) (GoTime.format offset sec).
Proof.
  unfold GoTime.format. destruct (GoTime.civil _) as [[y m] d].
  repeat first [apply pad_solid | apply Forall_app; split
               | apply Forall_cons; split; [by vm_compute|]].
Qed.

(** The time-stamped name of a file is one entry when the file name is
    safe. *)
Lemma baseFilename_simple E msg filename :
  safeName filename -> simpleElement (baseFilenameOf E msg filename).
Proof.
  intros Hf. unfold baseFilenameOf.
  pose proof (format_solid (zoneOffset E (msg_Date msg)) (msg_Date msg)) as Hs.
  destruct (GoTime.format _ _) as [|c t]; simpl.
  - by apply simpleElement_solid_head.
  - apply Forall_cons in Hs as [Hc Hs]. apply simpleElement_solid_head; [done|].
    apply Forall_app. split.
    + eapply Forall_impl; [exact Hs|]. apply solid_safe.
    + by constructor.
Qed.

Lemma mediaDir_simple : simpleElement mediaDir.
Proof. apply simpleElement_solid_head; [by vm_compute|]. by repeat constructor. Qed.

Lemma subDirOf_path msg :
  subDirOf msg = mediaDir ++ "/"%char :: default (str "unknown_sender") (subDirNameOf msg).
Proof.
  unfold subDirOf.
  change mediaDir with (joinElems [mediaDir]) at 1.
  rewrite Join_simple; [done|done| |apply subDirName_simple].
  apply Forall_singleton, mediaDir_simple.
Qed.

Lemma destPathOf_path E msg filename :
  safeName filename ->
  destPathOf E msg filename = subDirOf msg ++ "/"%char :: baseFilenameOf E msg filename.
Proof.
  intros Hf. unfold destPathOf. rewrite subDirOf_path.
  change (mediaDir ++ "/"%char :: default (str "unknown_sender") (subDirNameOf msg))
    with (joinElems [mediaDir; default (str "unknown_sender") (subDirNameOf msg)]).
  rewrite Join_simple; [done|done| |by apply baseFilename_simple].
  apply Forall_cons. split; [apply mediaDir_simple|].
  apply Forall_singleton, subDirName_simple.
Qed.

Lemma beforeLastSep_app r q :
  "/"%char ∉ r -> beforeLastSep (r ++ "/"%char :: q) = Some q.
Proof.
  induction r as [|c r IH]; intros Hno; simpl; [done|].
  apply not_elem_of_cons in Hno as [Hc Hno].
  rewrite (proj2 (Ascii.eqb_neq _ _)) by congruence. by apply IH.
Qed.

Lemma parent_app dir e : dir <> [] -> "/"%char ∉ e -> parent (dir ++ "/"%char :: e) = Some dir.
Proof.
  intros Hd He. unfold parent.
  rewrite reverse_app, reverse_cons, <-(assoc_L (++)). simpl.
  rewrite beforeLastSep_app by by rewrite elem_of_reverse.
  rewrite bool_decide_eq_false_2, reverse_involutive; [done|].
  intros H. apply (f_equal reverse) in H. by rewrite reverse_involutive in H.
Qed.

(** X15. A document is written directly into the directory of its
    sender under [media_backup], whatever its file name and MIME type:
    the destination is [media_backup/<sender>/<timestamp>_<name>] with
    [<sender>] and [<timestamp>_<name>] each one entry, neither [.] nor
    [..] and free of separators. *)
Theorem document_is_written_into_its_directory E n msg doc w dest :
  msg_Media msg = Some (MessageMediaDocument (Some (DocumentOf doc))) ->
  derivedPath E n msg w = Some dest ->
  exists sub name,
    dest = mediaDir ++ "/"%char :: sub ++ "/"%char :: name /\
    simpleElement sub /\ simpleElement name /\
    subDirOf msg = mediaDir ++ "/"%char :: sub /\
    parent dest = Some (subDirOf msg) /\
    parent (subDirOf msg) = Some mediaDir.
Proof.
  intros Hm. unfold derivedPath. rewrite value_inputLocation. unfold located. rewrite Hm.
  destruct (sanitize (clock E n) (rawDocumentName E doc)) as [filename|] eqn:Hs; [|done].
  apply sanitize_returns_safe in Hs as (Hne & Hsafe & _).
  unfold settledName. rewrite bool_decide_eq_false_2 by done. intros [= <-].
  pose proof (subDirName_simple msg) as Hsub.
  pose proof (baseFilename_simple E msg filename Hsafe) as Hbase.
  exists (default (str "unknown_sender") (subDirNameOf msg)), (baseFilenameOf E msg filename).
  rewrite destPathOf_path by done. rewrite subDirOf_path.
  split; [by rewrite <-(assoc_L (++))|]. split; [done|]. split; [done|]. split; [done|].
  split.
  - apply parent_app; [by destruct mediaDir|]. by destruct Hbase as (_ & ? & _).
  - apply parent_app; [done|]. by destruct Hsub as (_ & ? & _).
Qed.

Lemma document_is_written_into_its_directory_witness :
  exists sub name,
    str "media_backup/42/20231114_221320__.._etc_passwd"
    = mediaDir ++ "/"%char :: sub ++ "/"%char :: name /\
    simpleElement sub /\ simpleElement name /\
    subDirOf (documentMessage 1 (str "../../etc/passwd") (str "x/y"))
    = mediaDir ++ "/"%char :: sub /\
    parent (str "media_backup/42/20231114_221320__.._etc_passwd")
    = Some (subDirOf (documentMessage 1 (str "../../etc/passwd") (str "x/y"))) /\
    parent (subDirOf (documentMessage 1 (str "../../etc/passwd") (str "x/y")))
    = Some mediaDir.
Proof.
  apply (document_is_written_into_its_directory demoEnv 0
           (documentMessage 1 (str "../../etc/passwd") (str "x/y"))
           (demoDocument (str "../../etc/passwd") (str "x/y")) emptyWorld);
    by vm_compute.
Defined.

(** The name of a photo is not sanitized (line 377): with a separator in
    the type of the chosen size the destination leaves the tree. *)
Example photo_destination_outside_the_tree :
  derivedPath demoEnv 0 (photoMessage 1 [PhotoSize (str "/../../../x") 10 10 1]) emptyWorld
  = Some (str "x.jpg").
Proof. by vm_compute. Qed.

(** ** Failures *)

Lemma store_finishes E n loc msg filename w :
  filename <> [] -> exists r w', store E n loc msg filename w = Done r w'.
Proof.
  intros Hne. rewrite (store_unfold _ _ _ _ _ _ Hne).
  destruct (MkdirAll (files w) mediaDir) as [f1|]; [|by eexists _, _].
  destruct (MkdirAll f1 (subDirOf msg)) as [f2|]; [|by eexists _, _].
  cbv zeta. destruct (Stat f2 (destPathOf E msg filename)); rewrite ?fetchTo_unfold;
    cbv zeta; try destruct (download E n loc (destPathOf E msg filename));
    by eexists _, _.
Qed.

(** X16. The process dies in an event exactly when the event is the
    deletion of a message whose document or photo medium has no payload
    ([AsNotEmpty] called on [nil], lines 296 and 318) or whose document
    has a file-name attribute that makes [sanitize] panic: a name of more
    than 221 bytes whose extension, once cleaned, has more than 220.
    Nothing was written, fetched or counted for the event. *)
Theorem process_dies_exactly_of_fatal_media E found ev w :
  ((exists w', processEvent E found ev w = Crashed w') <->
   exists msg,
     ev_Action ev = ChannelAdminLogEventActionDeleteMessage (MessageOf msg) /\
     fatalMedia msg) /\
  forall w',
    processEvent E found ev w = Crashed w' ->
    files w' = files w /\ fetches w' = fetches w /\ total w' = total w.
Proof.
  rewrite processEvent_unfold.
  set (w0 := withMaxID (ev_ID ev) (withHandled (S (handled w)) w)).
  destruct (ev_Action ev) as [[id|msg|id]|] eqn:Hev;
    try (unfold handleEvent; rewrite Hev; simpl;
         split; [split; [by intros [w' ?]|by intros (msg' & ? & _)]|done]).
  destruct (msg_Media msg) as [media|] eqn:Hm.
  2:{ unfold handleEvent. rewrite Hev, Hm. simpl. split; [split|done].
      - by intros [w' ?].
      - intros (msg' & [= <-] & [H|[H|(doc & name & H & _)]]); congruence. }
  rewrite (handleEvent_media E (handled w) found ev msg media w0 Hev Hm).
  rewrite saveMedia_unfold.
  destruct (logsOnly_inputLocation E (clock E (handled w)) msg) as (l & r & Hloc).
  pose proof (value_inputLocation E (clock E (handled w)) msg w0) as Hv.
  rewrite Hloc in Hv |- *. unfold located in Hv. rewrite Hm in Hv.
  destruct r as [[loc filename|err]|].
  - assert (filename <> []) as Hne by exact (inputLocation_filename _ _ _ _ _ _ _ (Hloc w)).
    destruct (store_finishes E (handled w) loc msg filename
                (withLogged
                   (logged (logging InfoLevel "Found deleted message with media"
                              [FInt "msg_id" (msg_ID msg); FInt "date" (msg_Date msg)] w0)
                    ++ l)
                   (logging InfoLevel "Found deleted message with media"
                      [FInt "msg_id" (msg_ID msg); FInt "date" (msg_Date msg)] w0)) Hne)
      as (res & w1 & ->).
    split; [split|by destruct res].
    + intros [w' ?]. by destruct res.
    + intros (msg' & [= <-] & Hfatal). exfalso.
      destruct Hfatal as [H|[H|(doc & name & H & Hattr & He & _)]];
        rewrite H in Hm; injection Hm as <-; simpl in Hv; try done.
      unfold rawDocumentName in Hv. rewrite Hattr in Hv.
      assert (sanitize (clock E (handled w)) name = Panics) as Hp.
      { apply sanitize_panics_iff. split; [|done].
        pose proof (Ext_length (clean name)). unfold len in *. lia. }
      by rewrite Hp in Hv.
  - split; [split|by case_bool_decide].
    + intros [w' ?]. by case_bool_decide.
    + intros (msg' & [= <-] & Hfatal). exfalso.
      destruct Hfatal as [H|[H|(doc & name & H & Hattr & He & _)]];
        rewrite H in Hm; injection Hm as <-; simpl in Hv; try done.
      unfold rawDocumentName in Hv. rewrite Hattr in Hv.
      assert (sanitize (clock E (handled w)) name = Panics) as Hp.
      { apply sanitize_panics_iff. split; [|done].
        pose proof (Ext_length (clean name)). unfold len in *. lia. }
      by rewrite Hp in Hv.
  - split; [split; [intros _|by eexists]|by intros w' [= <-]].
    exists msg. split; [done|]. unfold fatalMedia. rewrite Hm.
    destruct media as [[[id|doc]|]|[[id|photo]|]|]; simpl in Hv; try done.
    + destruct (sanitize (clock E (handled w)) (rawDocumentName E doc)) eqn:Hs; [done|].
      unfold rawDocumentName in Hs. right. right.
      destruct (firstFilename (doc_Attributes doc)) as [name|] eqn:Hattr.
      * exists doc, name. apply sanitize_panics_iff in Hs as [Hl He].
        split_and!; try done.
        pose proof (clean_length name) as Hc.
        destruct (clean_Ext_length name) as [Hnil|Hlt].
        -- rewrite Hnil in Hl. by vm_compute in Hl.
        -- unfold len in *. lia.
      * pose proof (mimeExt_acceptable E (doc_MimeType doc)) as Hacc.
        unfold acceptable in Hacc. apply andb_true_iff in Hacc as [Hacc _].
        apply andb_true_iff in Hacc as [_ Hlen]. apply Z.ltb_lt in Hlen.
        destruct (sanitize_number_prefix (doc_ID doc)
                    ("."%char :: mimeExt E (doc_MimeType doc))) as (rest & _ & _ & Hr).
        { unfold len in *. simpl. lia. }
        by rewrite Hr in Hs.
    + by left.
    + right. by left.
Qed.

(** A medium without payload: the process dies in the event, before
    anything is logged for the medium. *)
Example nil_payload_aborts_scan :
  processEvents demoEnv false
    [deletion 9 (demoMessage 1 (Some (MessageMediaDocument None)));
     deletion 8 (documentMessage 2 (str "b.txt") (str "x/y"))] emptyWorld
  = Crashed
      (logging InfoLevel "Found deleted message with media"
         [FInt "msg_id" 1; FInt "date" 1700000000]
         (withMaxID 9 (withHandled 1 emptyWorld))).
Proof. by vm_compute. Qed.

(** X17. A call of [saveMedia] that returns an error leaves no new
    regular file behind, at the destination or elsewhere. *)
Theorem failed_save_adds_no_file E n msg w err w' :
  saveMedia E n msg w = Done (Some err) w' ->
  noNewRegularFiles (files w) (files w').
Proof.
  intros Hs q c.
  destruct (saveMedia_cases E n msg w)
    as [[_ Hsame]|(loc & filename & f1 & f2 & _ & _ & H1 & H2 & _ & _ & Hd)];
    rewrite Hs in *; simpl in *; [apply Hsame|].
  pose proof (sameRegularFiles_trans _ _ _ (mkdirAll_sameRegularFiles _ _ _ _ H1)
                (mkdirAll_sameRegularFiles _ _ _ _ H2)) as S12.
  destruct (download E n loc (destPathOf E msg filename)) as [c'|partial];
    destruct Hd as [Hv ->]; [done|].
  destruct (decide (q = destPathOf E msg filename)) as [->|Hq].
  - intros Hc. by apply Remove_no_file in Hc.
  - rewrite Remove_other by done.
    destruct partial as [c'|]; rewrite ?lookup_insert_ne by done; apply S12.
Qed.

Lemma failed_save_adds_no_file_witness :
  noNewRegularFiles (files emptyWorld)
    (files (world_of (saveMedia demoEnv 1 (documentMessage 2 (str "b.txt") (str "x/y"))
                        emptyWorld))).
Proof.
  apply (failed_save_adds_no_file demoEnv 1 (documentMessage 2 (str "b.txt") (str "x/y"))
           emptyWorld (ErrDownload (str "20231114_221320_b.txt") 2)).
  apply value_Done. by vm_compute.
Defined.

(** X18. [inputLocation] only writes to the log: the tree, the network
    and the variables of the loop are as they were, and neither what it
    returns nor what it logs depends on the state of the world. *)
Theorem inputLocation_only_writes_the_log E now msg :
  exists l res, forall w,
    world_of (inputLocation E now msg w) = withLogged (logged w ++ l) w /\
    value (inputLocation E now msg w) = res.
Proof.
  destruct (logsOnly_inputLocation E now msg) as (l & r & Hloc).
  exists l, (match r with Returns a => Some a | Panics => None end).
  intros w. rewrite Hloc. by destruct r.
Qed.

(** ** The pipeline at work *)

Example sanitize_path_traversal now :
  sanitize now (str "../../etc/passwd") = Returns (str "_.._etc_passwd").
Proof. by vm_compute. Qed.

Example sanitize_unsafe_characters now :
  sanitize now (str "  a:b*c?d<e>f|g.txt. ") = Returns (str "a_b_c_d_e_f_g.txt").
Proof. by vm_compute. Qed.

Example sanitize_reserved now :
  sanitize now (str "con.txt") = Returns (str "_con.txt") /\
  sanitize now (str "Lpt1") = Returns (str "_Lpt1") /\
  sanitize now (str "con.tar.gz") = Returns (str "con.tar.gz").
Proof. by vm_compute. Qed.

Example sanitize_placeholders :
  sanitize 7 [] = Returns (str "empty_filename") /\
  sanitize 7 (str " .. ") = Returns (str "sanitized_file_7").
Proof. by vm_compute. Qed.

Example format_timestamp :
  GoTime.format 0 1700000000 = str "20231114_221320" /\
  GoTime.format 3600 951782400 = str "20000229_010000" /\
  GoTime.format 0 (-1) = str "19691231_235959".
Proof. by vm_compute. Qed.

Example join_paths :
  Join mediaDir (str "42") = str "media_backup/42" /\
  Join (str "media_backup/42") (str "20231114_221320_a.txt")
  = str "media_backup/42/20231114_221320_a.txt" /\
  Clean (str "/../a//b/./c/..") = str "/a/b".
Proof. by vm_compute. Qed.

Example mime_extensions :
  mimeExt demoEnv (str "text/Plain; charset=utf-8") = str "plain" /\
  mimeExt demoEnv (str "application/vnd.ms-excel") = str "bin" /\
  mimeExt demoEnv (str "a/b/c") = str "bin" /\
  mimeExt demoEnv (str "video/mp4") = str "mp4".
Proof. by vm_compute. Qed.

(** Two pages: the first message is saved, the transfer for the second
    fails, the third event is no deletion.  The scan ends with the cursor
    on the last event and one file counted. *)
Example scan_two_pages :
  exists w,
    scan pagedEnv 5 0 emptyWorld = Done Exhausted w /\
    maxID w = 5 /\ total w = 1 /\ handled w = 3%nat /\
    files w !! str "media_backup/42/20231114_221320_a.txt" = Some (File (str "data")) /\
    files w !! str "media_backup/42/20231114_221320_b.txt" = None.
Proof. eexists. by vm_compute. Qed.
